(** * Process events cache of the opensnitch daemon (daemon/procmon/cache_events.go)

    A shallow embedding of [EventsStore]: the PID map [eventByPID], the
    checksum-algorithm table [checksums] and the [checksumsEnabled] flag.
    Locks are dropped: every operation runs as one critical section of
    the sequential model.  [time.Now()] is an explicit argument [now]
    (nanoseconds since the epoch).  Methods of [Process] whose code is not
    part of this file ([IsAlive], [ComputeChecksums], [GetParent],
    [BuildTree]) are section variables, so every result holds for any
    behaviour of theirs. *)

From Stdlib Require Import ZArith String.
From stdpp Require Import base gmap strings list.

Open Scope Z_scope.
Set Warnings "-register-all".

(** ** Data model *)

(** [Process]: the fields of daemon/procmon's [Process] the cache uses.
    [Tree] is the ancestry list of (path, pid) pairs; [Parent] is the
    parent pointer ([None] is nil). *)
Inductive Process := mkProcess {
  ID : Z;
  PPID : Z;
  Path : string;
  Args : list string;
  Comm : string;
  Starttime : Z;
  Tree : list (string * Z);
  Parent : option Process;
  Checksums : gmap string string
}.

(** Writes to a single field ([p.PPID = x], [p.Tree = t], ...). *)
Definition set_PPID (p : Process) (x : Z) : Process :=
  mkProcess (ID p) x (Path p) (Args p) (Comm p) (Starttime p) (Tree p)
    (Parent p) (Checksums p).
Definition set_Tree (p : Process) (t : list (string * Z)) : Process :=
  mkProcess (ID p) (PPID p) (Path p) (Args p) (Comm p) (Starttime p) t
    (Parent p) (Checksums p).
Definition set_Parent (p : Process) (q : option Process) : Process :=
  mkProcess (ID p) (PPID p) (Path p) (Args p) (Comm p) (Starttime p) (Tree p)
    q (Checksums p).
Definition set_Checksums (p : Process) (c : gmap string string) : Process :=
  mkProcess (ID p) (PPID p) (Path p) (Args p) (Comm p) (Starttime p) (Tree p)
    (Parent p) c.

(** [p.ChecksumsCount()]: number of computed checksums. *)
Definition ChecksumsCount (p : Process) : nat := size (Checksums p).

(** The Go zero value of [Process]. *)
Definition zero_Process : Process :=
  mkProcess 0 0 "" [] "" 0 [] None ∅.

(** [ExecEventItem]. *)
Record ExecEventItem := mkExecEventItem {
  Proc : Process;
  LastSeen : Z;
  TTL : Z
}.

(** The Go zero value of [ExecEventItem], what indexing a map at an
    absent key yields. *)
Definition zero_ExecEventItem : ExecEventItem :=
  mkExecEventItem zero_Process 0 0.

Definition set_LastSeen (e : ExecEventItem) (t : Z) : ExecEventItem :=
  mkExecEventItem (Proc e) t (TTL e).

(** [EventsStore] ([mu] left out). [checksums] is a [map[string]uint]. *)
Record EventsStore := mkEventsStore {
  eventByPID : gmap Z ExecEventItem;
  checksums : gmap string N;
  checksumsEnabled : bool
}.

Definition set_eventByPID (e : EventsStore) (m : gmap Z ExecEventItem)
  : EventsStore := mkEventsStore m (checksums e) (checksumsEnabled e).
Definition set_checksums (e : EventsStore) (m : gmap string N)
  : EventsStore := mkEventsStore (eventByPID e) m (checksumsEnabled e).

(** [NewEventsStore()]. *)
Definition NewEventsStore : EventsStore := mkEventsStore ∅ ∅ false.

(** [m[k]] on a Go map of structs. *)
Definition map_index (m : gmap Z ExecEventItem) (k : Z) : ExecEventItem :=
  default zero_ExecEventItem (m !! k).

(** Package constants. *)
Definition pidTTL : Z := 20.
Definition Second : Z := 1000000000.

(** Go's [uint] is 64 bits wide. *)
Definition uint_mod : N := 2 ^ 64.

(** [time.Time.Sub]: the difference in nanoseconds, saturated to the
    [time.Duration] (int64) range. *)
Definition min_Duration : Z := - 2 ^ 63.
Definition max_Duration : Z := 2 ^ 63 - 1.
Definition time_Sub (t u : Z) : Z :=
  Z.max min_Duration (Z.min max_Duration (t - u)).

(** [int(d.Seconds())]: the conversion of the float number of seconds to
    [int] truncates toward zero, which is [Z.quot] by [Second]. *)
Definition duration_int_seconds (d : Z) : Z := Z.quot d Second.

(** ** Runs of the cache

    A run is a sequence of calls on the store. [Delete(key)] arms a timer
    holding the captured entry; [OpFire i] runs the closure of the [i]-th
    armed timer that has not fired yet, on the store as it is then. *)
Inductive op :=
  | OpAdd (now : Z) (proc : Process)
  | OpUpdateItem (now : Z) (proc : Process)
  | OpReplaceItem (now : Z) (oldProc newProc : Process)
  | OpUpdate (now : Z) (oldProc : Process) (proc : option Process)
  | OpIsInStore (now : Z) (key : Z) (proc : option Process)
  | OpDelete (key : Z)
  | OpFire (i : nat)
  | OpDeleteOldItems (now : Z).

Record State := mkState {
  store : EventsStore;
  timers : list (Z * ExecEventItem)
}.

Definition with_store (s : State) (e : EventsStore) : State :=
  mkState e (timers s).

Section Store.

(** Modelled from the spec: [Process.IsAlive()] (daemon/procmon, not part
    of this development), an external check against the kernel process
    table; any boolean function of the process. *)
Variable IsAlive : Process -> bool.
(** Modelled from the spec: [Process.ComputeChecksums(algos)] (not part of
    this development) populates [p.Checksums] from the algorithm table;
    this is the new checksum map it stores. *)
Variable proc_ComputeChecksums : gmap string N -> Process -> gmap string string.
(** Modelled from the spec: [Process.GetParent()] (not part of this
    development) resolves the parent; this is the new [p.Parent]. *)
Variable GetParent : Process -> option Process.
(** Modelled from the spec: [Process.BuildTree()] (not part of this
    development) builds the ancestry; this is the new [p.Tree]. *)
Variable BuildTree : Process -> list (string * Z).

(** [(e *ExecEventItem) isValid()] at time [now]. *)
Definition isValid (now : Z) (e : ExecEventItem) : bool :=
  duration_int_seconds (time_Sub now (LastSeen e)) <? pidTTL.

(** [UpdateItem(proc)]. *)
Definition UpdateItem (now : Z) (proc : Process) (e : EventsStore)
  : EventsStore :=
  if String.eqb (Path proc) "" then e else
  let oldItem := map_index (eventByPID e) (ID proc) in
  if negb (String.eqb (Path (Proc oldItem)) (Path proc))
     && (Starttime proc <? Starttime (Proc oldItem))
  then e
  else
    let ev := {| Proc := proc; LastSeen := now; TTL := 0 |} in
    set_eventByPID e (<[ID proc := ev]> (eventByPID e)).

(** [(e *EventsStore) ComputeChecksums(proc)]: the boolean result and
    the process as the method leaves it. *)
Definition ComputeChecksums (e : EventsStore) (proc : Process)
  : bool * Process :=
  if negb (checksumsEnabled e)
     || (IsAlive proc && (0 <? ChecksumsCount proc)%nat)
  then (false, proc)
  else (true, set_Checksums proc (proc_ComputeChecksums (checksums e) proc)).

(** [Add(proc)]: the new store and the process as [Add] leaves it. *)
Definition Add (now : Z) (e : EventsStore) (proc : Process)
  : EventsStore * Process :=
  let e := UpdateItem now proc e in
  if checksumsEnabled e then
    let '(computed, proc) := ComputeChecksums e proc in
    if computed then (UpdateItem now proc e, proc) else (e, proc)
  else (e, proc).

(** [ReplaceItem(oldProc, newProc)]: the new store, and [oldProc] and
    [newProc] as the method leaves them. *)
Definition ReplaceItem (now : Z) (e : EventsStore) (oldProc newProc : Process)
  : EventsStore * Process * Process :=
  let newProc := set_PPID newProc (ID oldProc) in
  let e := UpdateItem now newProc e in
  let '(e, newProc) :=
    if (ChecksumsCount newProc =? 0)%nat then
      let newProc := snd (ComputeChecksums e newProc) in
      (UpdateItem now newProc e, newProc)
    else (e, newProc) in
  let '(e, oldProc) :=
    match Tree oldProc with
    | [] =>
        let oldProc := set_Parent oldProc (GetParent oldProc) in
        let oldProc := set_Tree oldProc (BuildTree oldProc) in
        (UpdateItem now oldProc e, oldProc)
    | _ => (e, oldProc)
    end in
  match Tree newProc with
  | [] =>
      let newProc := set_Parent newProc (Some oldProc) in
      let newProc := set_Tree newProc (BuildTree newProc) in
      (UpdateItem now newProc e, oldProc, newProc)
  | _ => (e, oldProc, newProc)
  end.

(** Dereferencing a [*Process]: [None] is a nil-pointer panic. *)
Definition deref (p : option Process) : option Process := p.

Definition is_nil (p : option Process) : bool :=
  match p with None => true | Some _ => false end.

(** Sequencing in the panic monad [option]. *)
Local Notation "'let?' x := m 'in' k" :=
  (match m with Some x => k | None => None end)
  (at level 200, x name, m at level 200, k at level 200).

(** [Update(oldProc, proc)], where [proc] may be nil. The result is
    [None] when the method panics, otherwise the new store and the two
    processes as the method leaves them. Every access to [proc] goes
    through [deref], in the order of the source. *)
Definition Update (now : Z) (e : EventsStore) (oldProc : Process)
    (proc : option Process) : option (EventsStore * Process * option Process) :=
  let? reused :=
    (if negb (is_nil proc) then
       let? p := deref proc in
       Some ((ID p =? ID oldProc) && negb (String.eqb (Path p) (Path oldProc)))
     else Some false) in
  if reused then
    let? p := deref proc in
    let '(e, oldProc, p) := ReplaceItem now e oldProc p in
    Some (e, oldProc, Some p)
  else
    let '(oldProc, updateOld) :=
      match Tree oldProc with
      | [] =>
          let oldProc := set_Parent oldProc (GetParent oldProc) in
          (set_Tree oldProc (BuildTree oldProc), true)
      | _ => (oldProc, false)
      end in
    let? update :=
      (if negb (is_nil proc) then
         let? p := deref proc in
         Some ((0 <? length (Tree oldProc))%nat
               && (length (Tree p) =? 0)%nat
               && (ID oldProc =? ID p))
       else Some false) in
    let? proc :=
      (if update then
         let? p := deref proc in Some (Some (set_Tree p (Tree oldProc)))
       else Some proc) in
    let e := if updateOld then UpdateItem now oldProc e else e in
    if update then
      let? p := deref proc in
      Some (UpdateItem now p e, oldProc, proc)
    else Some (e, oldProc, proc).

(** [needsUpdate(cachedProc, proc)]; [cachedProc] is [&item.Proc], never
    nil, and [proc] may be nil. *)
Definition needsUpdate (cachedProc : Process) (proc : option Process) : bool :=
  let sumsCount := ChecksumsCount cachedProc in
  if match proc with
     | Some p => (ID p =? ID cachedProc)
                 && negb (String.eqb (Path p) (Path cachedProc))
     | None => false
     end then true
  else if negb (is_nil proc) && (0 <? sumsCount)%nat && IsAlive cachedProc
  then false
  else if (sumsCount =? 0)%nat then true
  else if match proc with
          | Some p => (length (Tree p) =? 0)%nat
          | None => false
          end then true
  else if (length (Tree cachedProc) =? 0)%nat then true
  else false.

(** [IsInStoreByPID(key)]: [(item, found)] and the store afterwards.
    [item] is a copy of the map value; the assignment to [item.LastSeen]
    writes that copy. *)
Definition IsInStoreByPID (now : Z) (e : EventsStore) (key : Z)
  : ExecEventItem * bool * EventsStore :=
  match eventByPID e !! key with
  | None => (zero_ExecEventItem, false, e)
  | Some item =>
      let item := set_LastSeen item now in
      (item, true, e)
  end.

(** [IsInStore(key, proc)]: [(item, needsUpdate, found)] and the store. *)
Definition IsInStore (now : Z) (e : EventsStore) (key : Z)
    (proc : option Process) : ExecEventItem * bool * bool * EventsStore :=
  let '(item, found, e) := IsInStoreByPID now e key in
  if negb found then (item, false, false, e)
  else if needsUpdate (Proc item) proc then (item, true, true, e)
  else (item, false, true, e).

(** [Len()]. *)
Definition Len (e : EventsStore) : nat := size (eventByPID e).

(** [Delete(key)]: the entry [ev] captured by the timer closure, or
    [None] when no timer is armed. *)
Definition Delete (e : EventsStore) (key : Z) : option ExecEventItem :=
  eventByPID e !! key.

(** The body of the [time.AfterFunc] closure armed by [Delete(key)],
    run on the store as it is when the timer fires. *)
Definition delete_fire (key : Z) (ev : ExecEventItem) (e : EventsStore)
  : EventsStore :=
  if negb (IsAlive (Proc ev))
  then set_eventByPID e (delete key (eventByPID e))
  else e.

(** [DeleteOldItems()] at time [now]: the loop deletes the entry it
    visits, so it keeps exactly the entries it does not delete. *)
Definition DeleteOldItems (now : Z) (e : EventsStore) : EventsStore :=
  set_eventByPID e
    (filter (fun kv : Z * ExecEventItem =>
               (negb (isValid now kv.2) && negb (IsAlive (Proc kv.2))) = false)
            (eventByPID e)).

(** [AddChecksumHash(hash)]: [e.checksums[hash]++] on a [uint]. *)
Definition AddChecksumHash (e : EventsStore) (hash : string) : EventsStore :=
  let c := default 0%N (checksums e !! hash) in
  set_checksums e (<[hash := ((c + 1) mod uint_mod)%N]> (checksums e)).

(** [DelChecksumHash(hash)]: [e.checksums[hash]--] when the key exists. *)
Definition DelChecksumHash (e : EventsStore) (hash : string) : EventsStore :=
  match checksums e !! hash with
  | Some c => set_checksums e
                (<[hash := ((c + uint_mod - 1) mod uint_mod)%N]> (checksums e))
  | None => e
  end.

(** [DisableChecksums()]. *)
Definition DisableChecksums (e : EventsStore) : EventsStore :=
  mkEventsStore (eventByPID e) ∅ false.

(** [GetComputeChecksums()]. *)
Definition GetComputeChecksums (e : EventsStore) : bool := checksumsEnabled e.

(** One call of a run. A panicking [Update] would stop the daemon; it
    leaves the state as it is here (it never panics, see C10). *)
Definition exec_op (o : op) (s : State) : State :=
  match o with
  | OpAdd now p => with_store s (fst (Add now (store s) p))
  | OpUpdateItem now p => with_store s (UpdateItem now p (store s))
  | OpReplaceItem now o n =>
      let '(e, _, _) := ReplaceItem now (store s) o n in with_store s e
  | OpUpdate now o p =>
      match Update now (store s) o p with
      | Some (e, _, _) => with_store s e
      | None => s
      end
  | OpIsInStore now key p =>
      let '(_, _, _, e) := IsInStore now (store s) key p in with_store s e
  | OpDelete key =>
      match Delete (store s) key with
      | Some ev => mkState (store s) (timers s ++ [(key, ev)])
      | None => s
      end
  | OpFire i =>
      match timers s !! i with
      | Some (key, ev) => mkState (delete_fire key ev (store s)) (delete i (timers s))
      | None => s
      end
  | OpDeleteOldItems now => with_store s (DeleteOldItems now (store s))
  end.

Definition run (ops : list op) (s : State) : State :=
  fold_left (fun s o => exec_op o s) ops s.

(** A property of every entry of the PID map. *)
Definition store_inv (P : ExecEventItem -> Prop) (e : EventsStore) : Prop :=
  map_Forall (fun _ it => P it) (eventByPID e).

End Store.

(** [SetComputeChecksums(compute)]. Its loops call [ResetChecksums] and
    [ComputeChecksums] on [item], a copy of each map value; the copy shares
    the process's checksum map with the stored entry, so what reaches the
    store is left open: [reset_effect] and [recompute_effect] are the
    effects on a stored entry, whatever they are. *)
Section SetCompute.

(** Modelled from the spec: the effect on a stored entry of
    [Process.ResetChecksums()] (not part of this development) run on the
    loop's copy. *)
Variable reset_effect : ExecEventItem -> ExecEventItem.
(** Modelled from the spec: the effect on a stored entry of
    [Process.ComputeChecksums(e.checksums)] run on the loop's copy. *)
Variable recompute_effect : gmap string N -> ExecEventItem -> ExecEventItem.

Definition SetComputeChecksums (compute : bool) (e : EventsStore) : EventsStore :=
  if Bool.eqb compute (checksumsEnabled e) then e
  else if negb compute then
    mkEventsStore (reset_effect <$> eventByPID e) (checksums e) false
  else
    mkEventsStore
      ((fun item => if (ChecksumsCount (Proc item) =? 0)%nat
                    then recompute_effect (checksums e) item else item)
         <$> eventByPID e)
      (checksums e) true.

End SetCompute.

(** Runs that also reconfigure checksums: a call of the cache ([COp]) or
    one of [SetComputeChecksums], [AddChecksumHash], [DelChecksumHash] and
    [DisableChecksums]. *)
Inductive cop :=
  | COp (o : op)
  | OpSetComputeChecksums (compute : bool)
  | OpAddChecksumHash (hash : string)
  | OpDelChecksumHash (hash : string)
  | OpDisableChecksums.

Definition exec_cop (IsAlive : Process -> bool)
    (pcc : gmap string N -> Process -> gmap string string)
    (GetParent : Process -> option Process)
    (BuildTree : Process -> list (string * Z))
    (reset_effect : ExecEventItem -> ExecEventItem)
    (recompute_effect : gmap string N -> ExecEventItem -> ExecEventItem)
    (c : cop) (s : State) : State :=
  match c with
  | COp o => exec_op IsAlive pcc GetParent BuildTree o s
  | OpSetComputeChecksums b =>
      with_store s (SetComputeChecksums reset_effect recompute_effect b (store s))
  | OpAddChecksumHash h => with_store s (AddChecksumHash (store s) h)
  | OpDelChecksumHash h => with_store s (DelChecksumHash (store s) h)
  | OpDisableChecksums => with_store s (DisableChecksums (store s))
  end.

Definition run_cop (IsAlive : Process -> bool)
    (pcc : gmap string N -> Process -> gmap string string)
    (GetParent : Process -> option Process)
    (BuildTree : Process -> list (string * Z))
    (reset_effect : ExecEventItem -> ExecEventItem)
    (recompute_effect : gmap string N -> ExecEventItem -> ExecEventItem)
    (cops : list cop) (s : State) : State :=
  fold_left (fun s c =>
    exec_cop IsAlive pcc GetParent BuildTree reset_effect recompute_effect c s) cops s.

(** [err != nil]. *)
Definition is_Some_bool {A} (o : option A) : bool :=
  match o with Some _ => true | None => false end.

(** ** The firewall front end (daemon/firewall/rules.go)

    The package keeps the selected firewall in the global [fw] and the
    queue number in [queueNum]. The backends ([iptables.Fw()],
    [nftables.Fw()]) and their names are not part of this development;
    calls made on a firewall object are recorded in [calls]. *)
Module Firewall.

Section Firewall.

(** Modelled from the spec: a firewall object (an implementation of the
    [Firewall] interface), opaque here. *)
Variable Handle : Type.
(** Modelled from the spec: [iptables.Name] and [nftables.Name]. *)
Variables iptables_Name nftables_Name : string.
(** Modelled from the spec: [config.DefaultConfigFile]. *)
Variable DefaultConfigFile : string.
(** Modelled from the spec: the results [(fw, err)] of [iptables.Fw()]
    and [nftables.Fw()]; [None] is nil. *)
Variables iptables_Fw nftables_Fw : option Handle * option string.

(** A call made on a firewall object. *)
Inductive FwCall :=
  | CallStop (h : Handle)
  | CallInit (h : Handle) (qNum : Z) (configPath monitorInterval : string)
      (bypassQueue : bool)
  | CallCleanRules (h : Handle) (logErrors : bool)
  | CallEnableInterception (h : Handle)
  | CallDisableInterception (h : Handle) (b : bool).

Record FwState := mkFwState {
  fw : option Handle;
  queueNum : Z;
  calls : list FwCall
}.

(** The two errors [Init] returns. *)
Inductive InitError :=
  | ErrBackend (msg : string)   (* "firewall error: %s, not iptables nor nftables ..." *)
  | ErrNotInitialized.          (* "Firewall not initialized. ..." *)

Definition set_fw (s : FwState) (f : option Handle) : FwState :=
  mkFwState f (queueNum s) (calls s).

(** [Init(fwType, configPath, monitorInterval, bypassQueue, qNum)]: the
    returned error and the package state afterwards ([confError] only
    selects a log line and is left out). *)
Definition Init (fwType configPath monitorInterval : string) (bypassQueue : bool)
    (qNum : Z) (s : FwState) : option InitError * FwState :=
  let fwType := if String.eqb fwType "" then nftables_Name else fwType in
  let configPath := if String.eqb configPath "" then DefaultConfigFile else configPath in
  let '(fw1, err1) :=
    if String.eqb fwType iptables_Name then iptables_Fw else (fw s, None) in
  let '(fw2, err2) :=
    if String.eqb fwType nftables_Name || is_Some_bool err1
    then nftables_Fw else (fw1, err1) in
  match err2 with
  | Some msg => (Some (ErrBackend msg), set_fw s fw2)
  | None =>
      match fw2 with
      | None => (Some ErrNotInitialized, set_fw s None)
      | Some h =>
          (None, mkFwState (Some h) qNum
                   (calls s ++ [CallStop h;
                                CallInit h qNum configPath monitorInterval bypassQueue]))
      end
  end.

(** Modelled from the spec: [fw.IsRunning()] of a firewall object. *)
Variable fw_IsRunning : Handle -> bool.

(** A call [c] made on the current firewall object. *)
Definition record (s : FwState) (c : FwCall) : FwState :=
  mkFwState (fw s) (queueNum s) (calls s ++ [c]).

(** [IsRunning()]: [fw != nil && fw.IsRunning()]. *)
Definition IsRunning (s : FwState) : bool :=
  match fw s with None => false | Some h => fw_IsRunning h end.

(** [CleanRules(logErrors)]. *)
Definition CleanRules (logErrors : bool) (s : FwState) : FwState :=
  match fw s with None => s | Some h => record s (CallCleanRules h logErrors) end.

(** [Stop()]. *)
Definition Stop (s : FwState) : FwState :=
  match fw s with None => s | Some h => record s (CallStop h) end.

(** [Reload(...)]: [Stop()] then [Init(...)]. *)
Definition Reload (fwtype configPath monitorInterval : string) (bypassQueue : bool)
    (qNum : Z) (s : FwState) : option InitError * FwState :=
  Init fwtype configPath monitorInterval bypassQueue qNum (Stop s).

(** [EnableInterception()]; the error is its message. *)
Definition EnableInterception (s : FwState) : option string * FwState :=
  match fw s with
  | None => (Some "firewall not initialized when trying to enable interception, report please", s)
  | Some h => (None, record s (CallEnableInterception h))
  end.

(** [DisableInterception()]. *)
Definition DisableInterception (s : FwState) : option string * FwState :=
  match fw s with
  | None => (Some "firewall not initialized when trying to disable interception, report please", s)
  | Some h => (None, record s (CallDisableInterception h true))
  end.

End Firewall.

End Firewall.

(** ** Concrete processes *)

Definition mkp (pid : Z) (path : string) (start : Z) : Process :=
  mkProcess pid 0 path [] "" start [] None ∅.

Definition with_sha1 (p : Process) : Process :=
  set_Checksums p {[ "sha1" := "abc" ]}.

(** ** Lemmas *)

(** The spec's scenario 2: an out-of-order update is dropped. *)
Example scenario_out_of_order :
  let e := UpdateItem 2 (mkp 42 "/bin/b" 400)
             (UpdateItem 1 (mkp 42 "/bin/a" 500) NewEventsStore) in
  option_map (fun it => Path (Proc it)) (eventByPID e !! 42) = Some "/bin/a".
Proof. vm_compute. reflexivity. Qed.

(** The spec's scenario 3: a same-path update wins even when older. *)
Example scenario_same_path :
  let e := UpdateItem 2 (with_sha1 (mkp 7 "/bin/x" 50))
             (UpdateItem 1 (mkp 7 "/bin/x" 100) NewEventsStore) in
  option_map (fun it => ChecksumsCount (Proc it)) (eventByPID e !! 7) = Some 1%nat.
Proof. vm_compute. reflexivity. Qed.

(** [IsInStoreByPID] never changes the store. *)
Lemma IsInStoreByPID_store (now : Z) (e : EventsStore) (key : Z) :
  (IsInStoreByPID now e key).2 = e.
Proof. unfold IsInStoreByPID. by destruct (eventByPID e !! key). Qed.

(** The store holding one entry for PID 1, last seen at time 0. *)
Definition store_pid1 : EventsStore :=
  set_eventByPID NewEventsStore
    {[ 1 := mkExecEventItem (mkp 1 "/bin/srv" 100) 0 0 ]}.

(** ** C1 *)

(** C1 (code_bug): [IsInStoreByPID(1)] at time 5 s on a store whose entry
    for PID 1 was last seen at 0 finds it and returns a snapshot with
    [LastSeen] = 5 s, but the entry held in the store keeps [LastSeen] = 0:
    the write goes to the local copy [item], not to [e.eventByPID[key]]. *)
Theorem IsInStoreByPID_touch_lost :
  let '(item, found, e) := IsInStoreByPID 5000000000 store_pid1 1 in
  found = true /\ LastSeen item = 5000000000 /\
  option_map LastSeen (eventByPID e !! 1) = Some 0.
Proof. vm_compute. auto. Qed.

(** ** C2 *)

Definition old_wrapper : Process := mkp 1234 "/bin/wrapper" 100.
Definition new_telnet : Process := mkp 1234 "/bin/telnet" 200.
Definition store_wrapper : EventsStore :=
  UpdateItem 0 old_wrapper NewEventsStore.
Definition captured_wrapper : ExecEventItem :=
  mkExecEventItem old_wrapper 0 0.
(** An aliveness check that tells incarnations apart by start time. *)
Definition alive_if_started_200 (p : Process) : bool := Starttime p =? 200.

(** C2 (counterexample): [Delete(1234)] captures the wrapper's entry, the
    entry is then overwritten by the live [/bin/telnet] incarnation, and
    the timer still removes it, because aliveness is asked of the captured
    wrapper, which is dead. *)
Lemma delete_fire_live_replacement_cex :
  ~ (forall (IsAlive : Process -> bool) (now : Z) (e : EventsStore)
            (ev : ExecEventItem) (newer : Process),
       Delete e (ID newer) = Some ev ->
       eventByPID (UpdateItem now newer e) !! ID newer
         = Some (mkExecEventItem newer now 0) ->
       IsAlive newer = true ->
       eventByPID (delete_fire IsAlive (ID newer) ev (UpdateItem now newer e))
         !! ID newer <> None).
Proof.
  intros H.
  apply (H alive_if_started_200 1 store_wrapper captured_wrapper new_telnet);
    vm_compute; reflexivity.
Qed.

(** C2 (amended): when the timer armed by [Delete(key)] fires, aliveness is
    asked of the entry [ev] captured by [Delete]; whatever entry is stored
    under [key] then (also a newer incarnation) is removed exactly when the
    captured process is not alive, and no other PID is touched. *)
Theorem delete_fire_checks_captured (IsAlive : Process -> bool) (key : Z)
    (ev : ExecEventItem) (e : EventsStore) :
  eventByPID (delete_fire IsAlive key ev e) !! key
    = (if IsAlive (Proc ev) then eventByPID e !! key else None) /\
  (forall k, k <> key ->
     eventByPID (delete_fire IsAlive key ev e) !! k = eventByPID e !! k).
Proof.
  unfold delete_fire; destruct (IsAlive (Proc ev)); simpl; split; auto.
  - apply lookup_delete_eq.
  - intros k Hk. apply lookup_delete_ne. congruence.
Qed.

(** ** C3 *)

(** The condition under which [UpdateItem(proc)] drops [proc]: an absent
    entry reads as the zero [ExecEventItem] (path "", start time 0). *)
Definition dropped_by_guard (e : EventsStore) (proc : Process) : Prop :=
  match eventByPID e !! ID proc with
  | Some old => Path (Proc old) <> Path proc /\ Starttime proc < Starttime (Proc old)
  | None => Starttime proc < 0
  end.

(** C3 (code bug): with no entry for PID 7, [UpdateItem] of a process with
    a non-empty path and start time -1 stores nothing: the absent entry is
    read as the zero [ExecEventItem] (path "", start time 0), and the
    out-of-order guard fires against it, although no entry exists. *)
Lemma UpdateItem_absent_negative_start_cex :
  let p := mkp 7 "/bin/x" (-1) in
  Path p <> "" /\ eventByPID NewEventsStore !! ID p = None /\
  eventByPID (UpdateItem 0 p NewEventsStore) !! ID p = None.
Proof. vm_compute. split; [discriminate | auto]. Qed.

(** X24: for [proc] with a non-empty path, [UpdateItem] leaves the store
    unchanged exactly when the entry for [proc.pid] has another path and a
    greater start time, or, when there is no entry, when [proc]'s start
    time is negative (the zero entry read for an absent key); otherwise it
    writes [{proc; now; ttl 0}]. *)
Theorem UpdateItem_out_of_order_guard (now : Z) (proc : Process)
    (e : EventsStore) :
  Path proc <> "" ->
  (dropped_by_guard e proc -> UpdateItem now proc e = e) /\
  (~ dropped_by_guard e proc ->
   UpdateItem now proc e
     = set_eventByPID e (<[ID proc := mkExecEventItem proc now 0]> (eventByPID e))).
Proof.
  intros Hpath. unfold UpdateItem, dropped_by_guard, map_index.
  destruct (String.eqb_spec (Path proc) "") as [Heq | _]; [congruence |].
  destruct (eventByPID e !! ID proc) as [old |]; cbn [default from_option id].
  - destruct (String.eqb (Path (Proc old)) (Path proc)) eqn:Hp;
      [apply String.eqb_eq in Hp | apply String.eqb_neq in Hp];
      destruct (Z.ltb_spec (Starttime proc) (Starttime (Proc old))) as [Hs | Hs];
      simpl; split; intros H; try reflexivity; exfalso; first [tauto | lia | destruct H; lia | apply H; lia].
  - cbn [Proc Path Starttime zero_ExecEventItem zero_Process].
    rewrite (proj2 (String.eqb_neq "" (Path proc))) by congruence.
    destruct (Z.ltb_spec (Starttime proc) 0) as [Hs | Hs];
      simpl; split; intros H; try reflexivity; exfalso; first [tauto | lia | destruct H; lia | apply H; lia].
Qed.

Lemma UpdateItem_out_of_order_guard_witness :
  Path (mkp 42 "/bin/b" 400) <> "" /\
  UpdateItem 2 (mkp 42 "/bin/b" 400)
    (UpdateItem 1 (mkp 42 "/bin/a" 500) NewEventsStore)
  = UpdateItem 1 (mkp 42 "/bin/a" 500) NewEventsStore /\
  UpdateItem 0 (mkp 7 "/bin/x" (-1)) NewEventsStore = NewEventsStore.
Proof.
  split; [discriminate |]. split.
  - apply (UpdateItem_out_of_order_guard 2 (mkp 42 "/bin/b" 400)); [discriminate |].
    vm_compute. split; [discriminate | reflexivity].
  - apply (UpdateItem_out_of_order_guard 0 (mkp 7 "/bin/x" (-1))); [discriminate |].
    vm_compute. reflexivity.
Defined.

(** The guard as it reads when the entry exists: another path and a
    greater start time. *)
Definition dropped_existing (e : EventsStore) (proc : Process) : Prop :=
  match eventByPID e !! ID proc with
  | Some old => Path (Proc old) <> Path proc /\ Starttime proc < Starttime (Proc old)
  | None => False
  end.

(** X25: for [proc] with a non-empty path and a non-negative start time,
    [UpdateItem] leaves the store unchanged exactly when an entry for
    [proc.pid] exists with another path and a greater start time, and
    otherwise writes [{proc; now; ttl 0}]: the zero-entry read for an
    absent key matters only for negative start times. *)
Theorem UpdateItem_guard_nonneg_start (now : Z) (proc : Process)
    (e : EventsStore) :
  Path proc <> "" -> 0 <= Starttime proc ->
  (dropped_existing e proc -> UpdateItem now proc e = e) /\
  (~ dropped_existing e proc ->
   UpdateItem now proc e
     = set_eventByPID e (<[ID proc := mkExecEventItem proc now 0]> (eventByPID e))).
Proof.
  intros Hpath Hnn. unfold UpdateItem, dropped_existing, map_index.
  destruct (String.eqb_spec (Path proc) "") as [Heq | _]; [congruence |].
  destruct (eventByPID e !! ID proc) as [old |]; cbn [default from_option id].
  - destruct (String.eqb (Path (Proc old)) (Path proc)) eqn:Hp;
      [apply String.eqb_eq in Hp | apply String.eqb_neq in Hp];
      destruct (Z.ltb_spec (Starttime proc) (Starttime (Proc old))) as [Hs | Hs];
      simpl; split; intros H; try reflexivity; exfalso; first [tauto | lia | destruct H; lia | apply H; lia].
  - cbn [Proc Path Starttime zero_ExecEventItem zero_Process].
    rewrite (proj2 (String.eqb_neq "" (Path proc))) by congruence.
    destruct (Z.ltb_spec (Starttime proc) 0) as [Hs | Hs]; [lia |].
    simpl. split; intros H; [contradiction | reflexivity].
Qed.

(** A first write of PID 42 (no entry yet) and an out-of-order write. *)
Lemma UpdateItem_guard_nonneg_start_witness :
  eventByPID (UpdateItem 1 (mkp 42 "/bin/a" 500) NewEventsStore)
    = {[42 := mkExecEventItem (mkp 42 "/bin/a" 500) 1 0]} /\
  UpdateItem 2 (mkp 42 "/bin/b" 400)
    (UpdateItem 1 (mkp 42 "/bin/a" 500) NewEventsStore)
  = UpdateItem 1 (mkp 42 "/bin/a" 500) NewEventsStore.
Proof.
  split.
  - rewrite (proj2 (UpdateItem_guard_nonneg_start 1 (mkp 42 "/bin/a" 500)
                      NewEventsStore ltac:(discriminate) ltac:(simpl; lia))).
    + reflexivity.
    + vm_compute. tauto.
  - apply (proj1 (UpdateItem_guard_nonneg_start 2 (mkp 42 "/bin/b" 400)
                    (UpdateItem 1 (mkp 42 "/bin/a" 500) NewEventsStore)
                    ltac:(discriminate) ltac:(simpl; lia))).
    vm_compute. split; [discriminate | reflexivity].
Defined.

(** ** C4 *)

Definition cached_alive_nosums : Process := mkp 9 "/bin/x" 1.
Definition candidate_sums : Process := with_sha1 (mkp 9 "/bin/x" 1).
Definition candidate_reuse : Process := with_sha1 (mkp 9 "/bin/y" 2).

(** C4 (counterexample): with every process alive, a candidate carrying a
    checksum gets [true] both when the cached process has no checksum and
    when the candidate reuses the cached PID with another path. *)
Lemma needsUpdate_candidate_sums_cex :
  (0 < ChecksumsCount candidate_sums)%nat /\
  needsUpdate (fun _ => true) cached_alive_nosums (Some candidate_sums) = true /\
  (0 < ChecksumsCount candidate_reuse)%nat /\
  needsUpdate (fun _ => true) (with_sha1 cached_alive_nosums)
    (Some candidate_reuse) = true.
Proof. vm_compute. repeat split; auto. Qed.

(** C4 (amended): [needsUpdate(cached, candidate)] with a non-nil candidate
    is true whenever the candidate has the cached PID with another path,
    and otherwise false whenever the CACHED process has at least one
    checksum and is alive. *)
Theorem needsUpdate_cache_hit (IsAlive : Process -> bool) (cached cand : Process) :
  (ID cand = ID cached /\ Path cand <> Path cached ->
   needsUpdate IsAlive cached (Some cand) = true) /\
  ((0 < ChecksumsCount cached)%nat ->
   IsAlive cached = true ->
   ~ (ID cand = ID cached /\ Path cand <> Path cached) ->
   needsUpdate IsAlive cached (Some cand) = false).
Proof.
  split.
  - intros [Hid Hp]. unfold needsUpdate; simpl.
    rewrite Hid, Z.eqb_refl. simpl.
    destruct (String.eqb_spec (Path cand) (Path cached)) as [He | _];
      [contradiction | reflexivity].
  - intros Hsums Halive Hreuse. unfold needsUpdate; simpl.
    destruct (Z.eqb_spec (ID cand) (ID cached)) as [Hid | Hid];
      destruct (String.eqb_spec (Path cand) (Path cached)) as [Hp | Hp];
      simpl; try tauto;
    apply Nat.ltb_lt in Hsums; rewrite Hsums, Halive; reflexivity.
Qed.

Lemma needsUpdate_cache_hit_witness :
  (0 < ChecksumsCount (with_sha1 cached_alive_nosums))%nat /\
  needsUpdate (fun _ => true) (with_sha1 cached_alive_nosums)
    (Some candidate_sums) = false.
Proof.
  split; [vm_compute; lia |].
  apply (proj2 (needsUpdate_cache_hit _ _ _)); [vm_compute; lia | reflexivity |].
  vm_compute. intros [_ H]. apply H. reflexivity.
Defined.

(** ** C5 *)

Lemma quot_Second_lt_pidTTL (x : Z) :
  duration_int_seconds x < pidTTL <-> x < pidTTL * Second.
Proof.
  unfold duration_int_seconds, pidTTL, Second.
  destruct (Z.le_gt_cases 0 x) as [Hx | Hx].
  - rewrite Z.quot_div_nonneg by lia. split; intros H.
    + destruct (Z.lt_ge_cases x (20 * 1000000000)) as [? | Hge]; [lia |].
      assert (20 <= x / 1000000000) by (apply Z.div_le_lower_bound; lia). lia.
    + apply Z.div_lt_upper_bound; lia.
  - split; intros _; [lia |].
    replace x with (- (- x)) by lia.
    rewrite Z.quot_opp_l by lia.
    assert (0 <= Z.quot (- x) 1000000000) by (apply Z.quot_pos; lia). lia.
Qed.

(** [isValid]: an entry is valid while it was seen less than [pidTTL]
    seconds ago. *)
Lemma isValid_spec (now : Z) (item : ExecEventItem) :
  isValid now item = true <-> now - LastSeen item < pidTTL * Second.
Proof.
  unfold isValid. rewrite Z.ltb_lt, quot_Second_lt_pidTTL.
  unfold time_Sub, min_Duration, max_Duration, pidTTL, Second. lia.
Qed.

(** C5: after [DeleteOldItems] at time [now], an entry last seen at least
    20 s earlier whose process is not alive is gone, an entry whose process
    is alive is kept whatever its age, and an entry seen less than 20 s
    earlier is kept. *)
Theorem DeleteOldItems_sweep (IsAlive : Process -> bool) (now : Z)
    (e : EventsStore) (k : Z) (item : ExecEventItem) :
  eventByPID e !! k = Some item ->
  (pidTTL * Second <= now - LastSeen item -> IsAlive (Proc item) = false ->
   eventByPID (DeleteOldItems IsAlive now e) !! k = None) /\
  (IsAlive (Proc item) = true ->
   eventByPID (DeleteOldItems IsAlive now e) !! k = Some item) /\
  (now - LastSeen item < pidTTL * Second ->
   eventByPID (DeleteOldItems IsAlive now e) !! k = Some item).
Proof.
  intros Hk. unfold DeleteOldItems; cbn [eventByPID set_eventByPID].
  split; [| split]; intros H1; [intros H2 |..].
  - assert (Hf : isValid now item = false).
    { destruct (isValid now item) eqn:E; auto. apply isValid_spec in E. lia. }
    apply map_lookup_filter_None_2. right. intros x Hx.
    rewrite Hk in Hx. injection Hx as <-. simpl.
    rewrite Hf, H2. discriminate.
  - apply map_lookup_filter_Some_2; [exact Hk |].
    simpl. rewrite H1, andb_false_r. reflexivity.
  - apply isValid_spec in H1.
    apply map_lookup_filter_Some_2; [exact Hk |].
    simpl. rewrite H1. reflexivity.
Qed.

Lemma DeleteOldItems_sweep_witness :
  eventByPID store_pid1 !! 1 = Some (mkExecEventItem (mkp 1 "/bin/srv" 100) 0 0) /\
  eventByPID (DeleteOldItems (fun _ => false) 21000000000 store_pid1) !! 1 = None.
Proof.
  split; [reflexivity |].
  apply (proj1 (DeleteOldItems_sweep (fun _ => false) 21000000000 store_pid1 1
                  (mkExecEventItem (mkp 1 "/bin/srv" 100) 0 0) eq_refl));
    [vm_compute; discriminate | reflexivity].
Defined.

(** ** C6 *)

Definition uint_table_ok (e : EventsStore) : Prop :=
  map_Forall (fun _ c => (c < uint_mod)%N) (checksums e).

(** C6 (counterexample): on an empty table, [AddChecksumHash("sha1")] then
    [DelChecksumHash("sha1")] leaves the key "sha1" with count 0. *)
Lemma checksum_hash_add_del_cex :
  checksums (DelChecksumHash (AddChecksumHash NewEventsStore "sha1") "sha1")
    = {[ "sha1" := 0%N ]} /\
  checksums NewEventsStore = ∅.
Proof. vm_compute. auto. Qed.

(** C6 (amended): [AddChecksumHash(h)] then [DelChecksumHash(h)] leaves the
    store unchanged when [h] is in the algorithm table; when it is not, the
    only change is the new key [h] with count 0. *)
Theorem checksum_hash_add_del (e : EventsStore) (h : string) :
  uint_table_ok e ->
  DelChecksumHash (AddChecksumHash e h) h
    = match checksums e !! h with
      | Some _ => e
      | None => set_checksums e (<[h := 0%N]> (checksums e))
      end.
Proof.
  intros Hok. unfold DelChecksumHash, AddChecksumHash, set_checksums; simpl.
  rewrite lookup_insert_eq, insert_insert_eq.
  destruct (checksums e !! h) as [c |] eqn:Hc; simpl.
  - assert (Hlt : (c < uint_mod)%N) by (exact (map_Forall_lookup_1 _ _ _ _ Hok Hc)).
    assert (Hmod : ((((c + 1) mod uint_mod) + uint_mod - 1) mod uint_mod)%N = c).
    { unfold uint_mod in *.
      destruct (N.eq_dec (c + 1)%N (2 ^ 64)%N) as [Heq | Hne].
      - rewrite Heq, N.Div0.mod_same. simpl. rewrite N.mod_small; lia.
      - rewrite (N.mod_small (c + 1)%N) by lia.
        replace (c + 1 + 2 ^ 64 - 1)%N with (c + 1 * 2 ^ 64)%N by lia.
        rewrite N.Div0.mod_add. apply N.mod_small. lia. }
    rewrite Hmod, insert_id by exact Hc. by destruct e.
  - reflexivity.
Qed.

Lemma checksum_hash_add_del_witness :
  uint_table_ok (set_checksums NewEventsStore {[ "sha1" := 3%N ]}) /\
  DelChecksumHash (AddChecksumHash (set_checksums NewEventsStore {[ "sha1" := 3%N ]}) "sha1") "sha1"
    = set_checksums NewEventsStore {[ "sha1" := 3%N ]}.
Proof.
  assert (Hok : uint_table_ok (set_checksums NewEventsStore {[ "sha1" := 3%N ]})).
  { unfold uint_table_ok. apply map_Forall_singleton. vm_compute. reflexivity. }
  split; [exact Hok |].
  exact (checksum_hash_add_del _ "sha1" Hok).
Defined.

(** ** Invariants of runs *)

Section Invariants.

Variable IsAlive : Process -> bool.
Variable proc_ComputeChecksums : gmap string N -> Process -> gmap string string.
Variable GetParent : Process -> option Process.
Variable BuildTree : Process -> list (string * Z).

(** A property of entries that every entry written by [UpdateItem] has. *)
Variable P : ExecEventItem -> Prop.
Hypothesis P_fresh :
  forall (proc : Process) (now : Z), Path proc <> "" -> P (mkExecEventItem proc now 0).

Lemma UpdateItem_inv (now : Z) (proc : Process) (e : EventsStore) :
  store_inv P e -> store_inv P (UpdateItem now proc e).
Proof.
  intros He. unfold UpdateItem.
  destruct (String.eqb (Path proc) "") eqn:Hp; [exact He |].
  apply String.eqb_neq in Hp.
  destruct (_ && _); [exact He |].
  apply map_Forall_insert_2; [apply P_fresh; exact Hp | exact He].
Qed.

Lemma Add_inv (now : Z) (e : EventsStore) (proc : Process) :
  store_inv P e ->
  store_inv P (Add IsAlive proc_ComputeChecksums now e proc).1.
Proof.
  intros He. unfold Add.
  repeat case_match; simplify_eq/=; repeat apply UpdateItem_inv; exact He.
Qed.

Lemma ReplaceItem_inv (now : Z) (e : EventsStore) (o n : Process) :
  store_inv P e ->
  store_inv P
    (ReplaceItem IsAlive proc_ComputeChecksums GetParent BuildTree now e o n).1.1.
Proof.
  intros He. unfold ReplaceItem.
  repeat case_match; simplify_eq/=; repeat apply UpdateItem_inv; exact He.
Qed.

Lemma Update_inv (now : Z) (e e' : EventsStore) (o o' : Process)
    (p p' : option Process) :
  Update IsAlive proc_ComputeChecksums GetParent BuildTree now e o p
    = Some (e', o', p') ->
  store_inv P e -> store_inv P e'.
Proof.
  intros Hu He. unfold Update, deref, is_nil in Hu.
  destruct p as [p |]; simpl in Hu.
  - destruct ((ID p =? ID o) && negb (String.eqb (Path p) (Path o))).
    + destruct (ReplaceItem IsAlive proc_ComputeChecksums GetParent BuildTree now e o p)
        as [[e1 o1] p1] eqn:Hr.
      simplify_eq.
      pose proof (ReplaceItem_inv now e o p He) as Hi. rewrite Hr in Hi. exact Hi.
    + repeat case_match; simplify_eq/=; repeat apply UpdateItem_inv; exact He.
  - repeat case_match; simplify_eq/=; repeat apply UpdateItem_inv; exact He.
Qed.

Lemma IsInStore_inv (now key : Z) (e : EventsStore) (p : option Process) :
  (IsInStore IsAlive now e key p).2 = e.
Proof.
  unfold IsInStore, IsInStoreByPID.
  destruct (eventByPID e !! key); simpl; [case_match |]; reflexivity.
Qed.

Lemma delete_fire_inv (key : Z) (ev : ExecEventItem) (e : EventsStore) :
  store_inv P e -> store_inv P (delete_fire IsAlive key ev e).
Proof.
  intros He. unfold delete_fire.
  destruct (IsAlive (Proc ev)); simpl; [exact He |].
  apply map_Forall_delete. exact He.
Qed.

Lemma DeleteOldItems_inv (now : Z) (e : EventsStore) :
  store_inv P e -> store_inv P (DeleteOldItems IsAlive now e).
Proof.
  intros He. unfold DeleteOldItems, store_inv; simpl.
  apply map_Forall_impl with (P := fun _ it => P it).
  - intros k it Hk. apply map_lookup_filter_Some_1_1 in Hk. exact (He k it Hk).
  - intros k it Hit. exact Hit.
Qed.

Lemma exec_op_inv (o : op) (s : State) :
  store_inv P (store s) ->
  store_inv P (store (exec_op IsAlive proc_ComputeChecksums GetParent BuildTree o s)).
Proof.
  intros Hs. destruct o as [now p | now p | now o n | now o p | now key p
                            | key | i | now]; simpl.
  - apply Add_inv; exact Hs.
  - apply UpdateItem_inv; exact Hs.
  - pose proof (ReplaceItem_inv now (store s) o n Hs) as Hi.
    destruct (ReplaceItem IsAlive proc_ComputeChecksums GetParent BuildTree now
                (store s) o n) as [[e1 o1] n1]; exact Hi.
  - destruct (Update IsAlive proc_ComputeChecksums GetParent BuildTree now
                (store s) o p) as [[[e1 o1] p1] |] eqn:Hu; [| exact Hs].
    exact (Update_inv now (store s) e1 o o1 p p1 Hu Hs).
  - pose proof (IsInStore_inv now key (store s) p) as Hi.
    destruct (IsInStore IsAlive now (store s) key p) as [[[it nu] found] e1].
    simpl in Hi. subst e1. exact Hs.
  - destruct (Delete (store s) key); exact Hs.
  - destruct (timers s !! i) as [[key ev] |]; simpl; [| exact Hs].
    apply delete_fire_inv; exact Hs.
  - apply DeleteOldItems_inv; exact Hs.
Qed.

Lemma run_inv (ops : list op) (s : State) :
  store_inv P (store s) ->
  store_inv P (store (run IsAlive proc_ComputeChecksums GetParent BuildTree ops s)).
Proof.
  revert s. induction ops as [| o ops IH]; intros s Hs; simpl; [exact Hs |].
  apply IH. apply exec_op_inv. exact Hs.
Qed.

End Invariants.

Section KeyedInvariants.

Variable IsAlive : Process -> bool.
Variable pcc : gmap string N -> Process -> gmap string string.
Variable GetParent : Process -> option Process.
Variable BuildTree : Process -> list (string * Z).

(** A property of every (PID, entry) pair that every entry written by
    [UpdateItem] has at its key. *)
Variable Pk : Z -> ExecEventItem -> Prop.
Hypothesis Pk_fresh :
  forall (proc : Process) (now : Z), Path proc <> "" ->
  Pk (ID proc) (mkExecEventItem proc now 0).

Definition keyed_inv (e : EventsStore) : Prop := map_Forall Pk (eventByPID e).

Lemma UpdateItem_keyed (now : Z) (proc : Process) (e : EventsStore) :
  keyed_inv e -> keyed_inv (UpdateItem now proc e).
Proof.
  intros He. unfold UpdateItem.
  destruct (String.eqb (Path proc) "") eqn:Hp; [exact He |].
  apply String.eqb_neq in Hp.
  destruct (_ && _); [exact He |].
  apply map_Forall_insert_2; [apply Pk_fresh; exact Hp | exact He].
Qed.

Lemma ReplaceItem_keyed (now : Z) (e : EventsStore) (o n : Process) :
  keyed_inv e ->
  keyed_inv (ReplaceItem IsAlive pcc GetParent BuildTree now e o n).1.1.
Proof.
  intros He. unfold ReplaceItem.
  repeat case_match; simplify_eq/=; repeat apply UpdateItem_keyed; exact He.
Qed.

Lemma exec_op_keyed (o : op) (s : State) :
  keyed_inv (store s) ->
  keyed_inv (store (exec_op IsAlive pcc GetParent BuildTree o s)).
Proof.
  intros Hs. destruct o as [now p | now p | now o n | now o p | now key p
                            | key | i | now]; simpl.
  - unfold Add. repeat case_match; simplify_eq/=; repeat apply UpdateItem_keyed; exact Hs.
  - apply UpdateItem_keyed; exact Hs.
  - pose proof (ReplaceItem_keyed now (store s) o n Hs) as Hi.
    destruct (ReplaceItem IsAlive pcc GetParent BuildTree now (store s) o n)
      as [[e1 o1] n1]; exact Hi.
  - destruct (Update IsAlive pcc GetParent BuildTree now (store s) o p)
      as [[[e1 o1] p1] |] eqn:Hu; [simpl | exact Hs].
    unfold Update, deref, is_nil in Hu.
    destruct p as [p |]; simpl in Hu.
    + destruct ((ID p =? ID o) && negb (String.eqb (Path p) (Path o))).
      * pose proof (ReplaceItem_keyed now (store s) o p Hs) as Hi.
        destruct (ReplaceItem IsAlive pcc GetParent BuildTree now (store s) o p)
          as [[e2 o2] p2]. simplify_eq. exact Hi.
      * repeat case_match; simplify_eq/=; repeat apply UpdateItem_keyed; exact Hs.
    + repeat case_match; simplify_eq/=; repeat apply UpdateItem_keyed; exact Hs.
  - pose proof (IsInStore_inv IsAlive now key (store s) p) as Hi.
    destruct (IsInStore IsAlive now (store s) key p) as [[[it nu] found] e1].
    simpl in Hi. subst e1. exact Hs.
  - destruct (Delete (store s) key); exact Hs.
  - destruct (timers s !! i) as [[key ev] |]; simpl; [| exact Hs].
    unfold delete_fire. destruct (IsAlive (Proc ev)); simpl; [exact Hs |].
    apply map_Forall_delete. exact Hs.
  - unfold keyed_inv, DeleteOldItems; simpl.
    intros k it Hk. apply map_lookup_filter_Some_1_1 in Hk. exact (Hs k it Hk).
Qed.

Lemma run_keyed (ops : list op) (s : State) :
  keyed_inv (store s) ->
  keyed_inv (store (run IsAlive pcc GetParent BuildTree ops s)).
Proof.
  revert s. induction ops as [| o ops IH]; intros s Hs; simpl; [exact Hs |].
  apply IH. apply exec_op_keyed. exact Hs.
Qed.

(** The loops of [SetComputeChecksums] act on the process an entry points
    to, never on the entry's key: their effects keep [Pk]. *)
Variable reset_effect : ExecEventItem -> ExecEventItem.
Variable recompute_effect : gmap string N -> ExecEventItem -> ExecEventItem.
Hypothesis Pk_reset : forall k it, Pk k it -> Pk k (reset_effect it).
Hypothesis Pk_recompute : forall k t it, Pk k it -> Pk k (recompute_effect t it).

Lemma exec_cop_keyed (c : cop) (s : State) :
  keyed_inv (store s) ->
  keyed_inv (store (exec_cop IsAlive pcc GetParent BuildTree
                      reset_effect recompute_effect c s)).
Proof.
  intros Hs. destruct c as [o | b | h | h |]; simpl.
  - apply exec_op_keyed. exact Hs.
  - unfold SetComputeChecksums.
    destruct (Bool.eqb b (checksumsEnabled (store s))); [exact Hs |].
    destruct b; simpl; unfold keyed_inv; simpl; apply map_Forall_fmap.
    + intros k it Hk. specialize (Hs k it Hk). simpl.
      destruct (ChecksumsCount (Proc it) =? 0)%nat; [apply Pk_recompute |]; exact Hs.
    + intros k it Hk. apply Pk_reset. exact (Hs k it Hk).
  - exact Hs.
  - unfold DelChecksumHash. case_match; exact Hs.
  - exact Hs.
Qed.

Lemma run_cop_keyed (cops : list cop) (s : State) :
  keyed_inv (store s) ->
  keyed_inv (store (run_cop IsAlive pcc GetParent BuildTree
                      reset_effect recompute_effect cops s)).
Proof.
  revert s. induction cops as [| c cops IH]; intros s Hs; simpl; [exact Hs |].
  apply IH. apply exec_cop_keyed. exact Hs.
Qed.

End KeyedInvariants.

(** ** C7 *)

Definition path_nonempty (it : ExecEventItem) : Prop := Path (Proc it) <> "".

(** C7: no run of [Add], [UpdateItem], [ReplaceItem], [Update],
    [IsInStore], [Delete] (with its timers) and [DeleteOldItems] puts an
    entry with an empty path in the PID map: the property is preserved by
    every sequence of calls. *)
Theorem run_no_empty_path (IsAlive : Process -> bool)
    (proc_ComputeChecksums : gmap string N -> Process -> gmap string string)
    (GetParent : Process -> option Process)
    (BuildTree : Process -> list (string * Z)) (ops : list op) (s : State) :
  store_inv path_nonempty (store s) ->
  store_inv path_nonempty
    (store (run IsAlive proc_ComputeChecksums GetParent BuildTree ops s)).
Proof.
  apply run_inv. intros proc now Hp. exact Hp.
Qed.

Definition ops_sample : list op :=
  [OpAdd 1 (mkp 5 "/bin/dead" 1); OpAdd 2 (mkp 6 "" 0);
   OpUpdate 3 (mkp 5 "/bin/dead" 1) (Some (mkp 5 "/bin/new" 2));
   OpDelete 5; OpFire 0; OpDeleteOldItems 30000000000].

Lemma run_no_empty_path_witness :
  store_inv path_nonempty (store (mkState NewEventsStore [])) /\
  store_inv path_nonempty
    (store (run (fun _ => false) (fun _ _ => ∅) (fun _ => None) (fun _ => [])
              ops_sample (mkState NewEventsStore []))).
Proof.
  assert (H0 : store_inv path_nonempty (store (mkState NewEventsStore [])))
    by apply map_Forall_empty.
  split; [exact H0 |].
  apply run_no_empty_path. exact H0.
Defined.

(** ** C8 *)

(** C8 (counterexample): the entry written by [Add] and returned by
    [IsInStoreByPID] carries [TTL] = 0, not 20. *)
Lemma stored_item_ttl_cex :
  let e := (Add (fun _ => false) (fun _ _ => ∅) 1 NewEventsStore
              (mkp 5 "/bin/x" 1)).1 in
  let '(item, found, _) := IsInStoreByPID 2 e 5 in
  found = true /\ TTL item = 0 /\ TTL item <> 20.
Proof. vm_compute. split; [reflexivity | split; [reflexivity | discriminate]]. Qed.

(** A run that turns checksums on before adding processes, so that [Add]
    computes checksums, and then reconfigures the algorithm table. *)
Definition cops_sample : list cop :=
  [OpAddChecksumHash "sha1"; OpSetComputeChecksums true;
   COp (OpAdd 1 (mkp 5 "/bin/x" 1));
   COp (OpUpdate 2 (mkp 5 "/bin/x" 1) (Some (mkp 5 "/bin/y" 2)));
   OpDelChecksumHash "sha1"; OpSetComputeChecksums false;
   COp (OpAdd 3 (mkp 6 "/bin/z" 3)); OpDisableChecksums;
   COp (OpDelete 6); COp (OpFire 0); COp (OpDeleteOldItems 30000000000)].

(** C8 (amended): the [TTL] field is never set. From any store whose
    entries have [TTL] = 0 (a new store among them), every sequence of
    calls, the checksum configuration calls included, keeps [TTL] = 0 on
    every stored entry, and every item returned by [IsInStoreByPID] or
    [IsInStore] has [TTL] = 0; expiry uses the package constant [pidTTL]
    (20 s) instead. The loops of [SetComputeChecksums] act on the process
    an entry points to, so their effects keep the entry's [TTL]. *)
Theorem run_ttl_zero (IsAlive : Process -> bool)
    (proc_ComputeChecksums : gmap string N -> Process -> gmap string string)
    (GetParent : Process -> option Process)
    (BuildTree : Process -> list (string * Z))
    (reset_effect : ExecEventItem -> ExecEventItem)
    (recompute_effect : gmap string N -> ExecEventItem -> ExecEventItem)
    (cops : list cop) (s0 : State) (now key : Z) (p : option Process) :
  (forall it, TTL (reset_effect it) = TTL it) ->
  (forall t it, TTL (recompute_effect t it) = TTL it) ->
  store_inv (fun it => TTL it = 0) (store s0) ->
  let s := run_cop IsAlive proc_ComputeChecksums GetParent BuildTree
             reset_effect recompute_effect cops s0 in
  store_inv (fun it => TTL it = 0) (store s) /\
  TTL (IsInStoreByPID now (store s) key).1.1 = 0 /\
  TTL (IsInStore IsAlive now (store s) key p).1.1.1 = 0.
Proof.
  intros Hreset Hrecompute H0 s.
  assert (Hs : store_inv (fun it => TTL it = 0) (store s)).
  { apply (run_cop_keyed IsAlive proc_ComputeChecksums GetParent BuildTree
             (fun _ it => TTL it = 0)); [intros; reflexivity | | | exact H0].
    - intros k it Hk. rewrite Hreset. exact Hk.
    - intros k t it Hk. rewrite Hrecompute. exact Hk. }
  assert (Hb : TTL (IsInStoreByPID now (store s) key).1.1 = 0).
  { unfold IsInStoreByPID.
    destruct (eventByPID (store s) !! key) as [it |] eqn:Hk; simpl; [| reflexivity].
    exact (map_Forall_lookup_1 _ _ _ _ Hs Hk). }
  split; [exact Hs | split; [exact Hb |]].
  unfold IsInStore.
  destruct (IsInStoreByPID now (store s) key) as [[it found] e1]; simpl in *.
  destruct (negb found); [| destruct (needsUpdate IsAlive (Proc it) p)]; exact Hb.
Qed.

Lemma run_ttl_zero_witness :
  let s := run_cop (fun _ => true) (fun _ _ => {["sha1" := "abc"]}) (fun _ => None)
             (fun _ => [("/sbin/init", 1)])
             (fun it => mkExecEventItem (set_Checksums (Proc it) ∅) (LastSeen it) (TTL it))
             (fun _ it => it) cops_sample (mkState NewEventsStore []) in
  store_inv (fun it => TTL it = 0) (store s) /\
  TTL (IsInStoreByPID 4 (store s) 5).1.1 = 0 /\
  TTL (IsInStore (fun _ => true) 4 (store s) 5 None).1.1.1 = 0.
Proof.
  apply run_ttl_zero; [intros; reflexivity | intros; reflexivity |].
  apply map_Forall_empty.
Defined.

(** ** C9 *)

Lemma UpdateItem_empty_path (now : Z) (proc : Process) (e : EventsStore) :
  Path proc = "" -> UpdateItem now proc e = e.
Proof. intros Hp. unfold UpdateItem. rewrite Hp. reflexivity. Qed.

(** C9: [Add(proc)] with an empty path leaves the store, and so its PID
    map, exactly as it was. *)
Theorem Add_empty_path (IsAlive : Process -> bool)
    (proc_ComputeChecksums : gmap string N -> Process -> gmap string string)
    (now : Z) (e : EventsStore) (proc : Process) :
  Path proc = "" -> (Add IsAlive proc_ComputeChecksums now e proc).1 = e.
Proof.
  intros Hp. unfold Add. rewrite (UpdateItem_empty_path now proc e Hp).
  destruct (checksumsEnabled e); [| reflexivity].
  unfold ComputeChecksums.
  destruct (negb (checksumsEnabled e) || _); simpl; [reflexivity |].
  apply UpdateItem_empty_path. exact Hp.
Qed.

Lemma Add_empty_path_witness :
  Path (mkp 8 "" 1) = "" /\
  (Add (fun _ => false) (fun _ _ => {[ "sha1" := "abc" ]}) 1
     (mkEventsStore ∅ ∅ true) (mkp 8 "" 1)).1 = mkEventsStore ∅ ∅ true.
Proof.
  split; [reflexivity |]. apply Add_empty_path. reflexivity.
Defined.

(** ** C10 *)

(** C10: [Update(oldProc, nil)] never dereferences the nil process (the
    result is not a panic), and its only store write is [UpdateItem] of
    [oldProc] after its parent and tree are resolved, when its tree was
    empty. *)
Theorem Update_nil_proc (IsAlive : Process -> bool)
    (proc_ComputeChecksums : gmap string N -> Process -> gmap string string)
    (GetParent : Process -> option Process)
    (BuildTree : Process -> list (string * Z))
    (now : Z) (e : EventsStore) (oldProc : Process) :
  Update IsAlive proc_ComputeChecksums GetParent BuildTree now e oldProc None
  = Some (match Tree oldProc with
          | [] =>
              let o := set_Parent oldProc (GetParent oldProc) in
              let o := set_Tree o (BuildTree o) in
              (UpdateItem now o e, o, None)
          | _ => (e, oldProc, None)
          end).
Proof. unfold Update; simpl. destruct (Tree oldProc); reflexivity. Qed.

(** ** Further properties of the store *)

(** The write condition of [UpdateItem] for a process with a non-empty
    path: the stored entry has the same path or is not newer; an absent
    entry reads as start time 0. *)
Definition update_accepted (e : EventsStore) (proc : Process) : Prop :=
  match eventByPID e !! ID proc with
  | Some old => Path (Proc old) = Path proc \/ Starttime (Proc old) <= Starttime proc
  | None => 0 <= Starttime proc
  end.

Lemma UpdateItem_cases (now : Z) (proc : Process) (e : EventsStore) :
  UpdateItem now proc e = e \/
  UpdateItem now proc e
    = set_eventByPID e (<[ID proc := mkExecEventItem proc now 0]> (eventByPID e)).
Proof.
  unfold UpdateItem. destruct (String.eqb (Path proc) ""); [by left |].
  destruct (_ && _); [by left | by right].
Qed.

(** X1: [UpdateItem] touches only the entry of [proc.ID]: the algorithm
    table, the checksums flag and every other PID's entry are unchanged. *)
Theorem UpdateItem_frame (now : Z) (proc : Process) (e : EventsStore) :
  checksums (UpdateItem now proc e) = checksums e /\
  checksumsEnabled (UpdateItem now proc e) = checksumsEnabled e /\
  (forall k, k <> ID proc ->
     eventByPID (UpdateItem now proc e) !! k = eventByPID e !! k).
Proof.
  destruct (UpdateItem_cases now proc e) as [-> | ->]; [auto |].
  simpl. split; [reflexivity | split; [reflexivity |]].
  intros k Hk. apply lookup_insert_ne. congruence.
Qed.

Lemma UpdateItem_written (now : Z) (proc : Process) (e : EventsStore) :
  Path proc <> "" -> update_accepted e proc ->
  UpdateItem now proc e
    = set_eventByPID e (<[ID proc := mkExecEventItem proc now 0]> (eventByPID e)).
Proof.
  intros Hp Hacc. unfold UpdateItem, update_accepted, map_index in *.
  rewrite (proj2 (String.eqb_neq (Path proc) "") Hp).
  destruct (eventByPID e !! ID proc) as [old |]; cbn [default from_option id].
  - destruct (String.eqb (Path (Proc old)) (Path proc)) eqn:Hs; [reflexivity |].
    apply String.eqb_neq in Hs.
    destruct (Z.ltb_spec (Starttime proc) (Starttime (Proc old))); [| reflexivity].
    destruct Hacc; [congruence | lia].
  - cbn [Proc Path Starttime zero_ExecEventItem zero_Process].
    rewrite (proj2 (String.eqb_neq "" (Path proc))) by congruence.
    destruct (Z.ltb_spec (Starttime proc) 0); [lia | reflexivity].
Qed.

(** X2: insert then lookup. When [UpdateItem] accepts a process with a
    non-empty path (the stored entry has the same path or is not newer),
    a later [IsInStoreByPID(proc.ID)] finds exactly that process. *)
Theorem UpdateItem_IsInStoreByPID (now t : Z) (proc : Process) (e : EventsStore) :
  Path proc <> "" -> update_accepted e proc ->
  (IsInStoreByPID t (UpdateItem now proc e) (ID proc)).1
    = (mkExecEventItem proc t 0, true).
Proof.
  intros Hp Hacc. rewrite (UpdateItem_written now proc e Hp Hacc).
  unfold IsInStoreByPID; simpl. rewrite lookup_insert_eq. reflexivity.
Qed.

(** Both writes find the entry of PID 42 already stored: one with another
    path and a later start time, one with the same path and an earlier
    start time. *)
Lemma UpdateItem_IsInStoreByPID_witness :
  let e := UpdateItem 0 (mkp 42 "/bin/a" 500) NewEventsStore in
  eventByPID e !! 42 <> None /\
  (IsInStoreByPID 3 (UpdateItem 1 (mkp 42 "/bin/b" 600) e) 42).1
    = (mkExecEventItem (mkp 42 "/bin/b" 600) 3 0, true) /\
  (IsInStoreByPID 3 (UpdateItem 1 (mkp 42 "/bin/a" 400) e) 42).1
    = (mkExecEventItem (mkp 42 "/bin/a" 400) 3 0, true).
Proof.
  intros e. split; [vm_compute; discriminate |]. split.
  - apply (UpdateItem_IsInStoreByPID 1 3 (mkp 42 "/bin/b" 600) e);
      [discriminate | vm_compute; right; discriminate].
  - apply (UpdateItem_IsInStoreByPID 1 3 (mkp 42 "/bin/a" 400) e);
      [discriminate | vm_compute; left; reflexivity].
Defined.

(** X3: a write of [q] overrides an earlier write of [q'] with the same PID,
    path and start time: the earlier call leaves no trace. *)
Theorem UpdateItem_overwrite (t t' : Z) (q q' : Process) (e : EventsStore) :
  ID q = ID q' -> Path q = Path q' -> Starttime q = Starttime q' ->
  UpdateItem t q (UpdateItem t' q' e) = UpdateItem t q e.
Proof.
  intros Hid Hpath Hst. unfold UpdateItem. rewrite <- Hpath, <- Hid, <- Hst.
  destruct (String.eqb (Path q) "") eqn:He; [reflexivity |].
  destruct (negb (String.eqb (Path (Proc (map_index (eventByPID e) (ID q)))) (Path q))
            && (Starttime q <? Starttime (Proc (map_index (eventByPID e) (ID q))))) eqn:Hg;
    [rewrite ?Hg, ?He; reflexivity |].
  cbn [eventByPID set_eventByPID]. unfold map_index at 1.
  rewrite lookup_insert_eq. cbn [default from_option id Proc].
  rewrite <- Hpath, String.eqb_refl. simpl.
  unfold set_eventByPID; simpl. rewrite insert_insert_eq. reflexivity.
Qed.

Lemma UpdateItem_overwrite_witness :
  UpdateItem 2 (mkp 7 "/bin/x" 100) (UpdateItem 1 (with_sha1 (mkp 7 "/bin/x" 100)) NewEventsStore)
  = UpdateItem 2 (mkp 7 "/bin/x" 100) NewEventsStore.
Proof. apply UpdateItem_overwrite; reflexivity. Defined.

Lemma ComputeChecksums_same_config (IsAlive : Process -> bool)
    (pcc : gmap string N -> Process -> gmap string string)
    (e e' : EventsStore) (p : Process) :
  checksums e' = checksums e -> checksumsEnabled e' = checksumsEnabled e ->
  ComputeChecksums IsAlive pcc e' p = ComputeChecksums IsAlive pcc e p.
Proof. intros H1 H2. unfold ComputeChecksums. rewrite H1, H2. reflexivity. Qed.

Lemma ComputeChecksums_identity (IsAlive : Process -> bool)
    (pcc : gmap string N -> Process -> gmap string string)
    (e : EventsStore) (p : Process) :
  ID (ComputeChecksums IsAlive pcc e p).2 = ID p /\
  Path (ComputeChecksums IsAlive pcc e p).2 = Path p /\
  Starttime (ComputeChecksums IsAlive pcc e p).2 = Starttime p.
Proof. unfold ComputeChecksums. destruct (_ || _); simpl; auto. Qed.

Lemma Add_store (IsAlive : Process -> bool)
    (pcc : gmap string N -> Process -> gmap string string)
    (t : Z) (e : EventsStore) (p : Process) :
  (Add IsAlive pcc t e p).1
    = if checksumsEnabled e && (ComputeChecksums IsAlive pcc e p).1
      then UpdateItem t (ComputeChecksums IsAlive pcc e p).2 (UpdateItem t p e)
      else UpdateItem t p e.
Proof.
  destruct (UpdateItem_frame t p e) as [Hc [Hf _]].
  unfold Add. rewrite Hf.
  rewrite (ComputeChecksums_same_config IsAlive pcc e (UpdateItem t p e) p Hc Hf).
  destruct (checksumsEnabled e); [| reflexivity].
  destruct (ComputeChecksums IsAlive pcc e p) as [[|] p']; reflexivity.
Qed.

Lemma UpdateItem_config2 (t t' : Z) (q q' : Process) (e : EventsStore) :
  checksums (UpdateItem t q (UpdateItem t' q' e)) = checksums e /\
  checksumsEnabled (UpdateItem t q (UpdateItem t' q' e)) = checksumsEnabled e.
Proof.
  destruct (UpdateItem_frame t' q' e) as [H1 [H2 _]].
  destruct (UpdateItem_frame t q (UpdateItem t' q' e)) as [H3 [H4 _]].
  split; congruence.
Qed.

Lemma Add_config (IsAlive : Process -> bool)
    (pcc : gmap string N -> Process -> gmap string string)
    (t : Z) (e : EventsStore) (p : Process) :
  checksums (Add IsAlive pcc t e p).1 = checksums e /\
  checksumsEnabled (Add IsAlive pcc t e p).1 = checksumsEnabled e.
Proof.
  rewrite Add_store. case_match; [apply UpdateItem_config2 |].
  destruct (UpdateItem_frame t p e) as [H1 [H2 _]]. auto.
Qed.

(** X4: [Add(p)] applied twice leaves the store as one [Add(p)] at the
    time of the second call. *)
Theorem Add_twice (IsAlive : Process -> bool)
    (pcc : gmap string N -> Process -> gmap string string)
    (t1 t2 : Z) (e : EventsStore) (p : Process) :
  (Add IsAlive pcc t2 (Add IsAlive pcc t1 e p).1 p).1 = (Add IsAlive pcc t2 e p).1.
Proof.
  destruct (Add_config IsAlive pcc t1 e p) as [Hc Hf].
  rewrite (Add_store IsAlive pcc t2 (Add IsAlive pcc t1 e p).1 p).
  rewrite (ComputeChecksums_same_config IsAlive pcc e _ p Hc Hf), Hf.
  rewrite (Add_store IsAlive pcc t1 e p), (Add_store IsAlive pcc t2 e p).
  destruct (ComputeChecksums_identity IsAlive pcc e p) as [Hi [Hp Hs]].
  destruct (ComputeChecksums IsAlive pcc e p) as [b p']; simpl in *.
  destruct (checksumsEnabled e && b).
  - f_equal. rewrite UpdateItem_overwrite by congruence.
    apply UpdateItem_overwrite; reflexivity.
  - apply UpdateItem_overwrite; reflexivity.
Qed.

(** X5: with a nil candidate, [needsUpdate] asks for an update exactly when
    the cached process has no checksum or no ancestry tree. *)
Theorem needsUpdate_nil (IsAlive : Process -> bool) (cached : Process) :
  needsUpdate IsAlive cached None
    = (ChecksumsCount cached =? 0)%nat || (length (Tree cached) =? 0)%nat.
Proof.
  unfold needsUpdate; simpl.
  destruct (ChecksumsCount cached =? 0)%nat; [reflexivity |].
  destruct (length (Tree cached) =? 0)%nat; reflexivity.
Qed.

(** X6: a cache hit ([needsUpdate] false) always has at least one
    checksum on the cached process. *)
Theorem needsUpdate_false_has_checksums (IsAlive : Process -> bool)
    (cached : Process) (cand : option Process) :
  needsUpdate IsAlive cached cand = false -> (0 < ChecksumsCount cached)%nat.
Proof.
  unfold needsUpdate. intros H.
  destruct (ChecksumsCount cached) as [| n]; [| lia].
  exfalso. revert H. simpl. rewrite andb_false_r.
  case_match; [discriminate |]. simpl. discriminate.
Qed.

Lemma needsUpdate_false_has_checksums_witness :
  needsUpdate (fun _ => true) (with_sha1 cached_alive_nosums) (Some candidate_sums) = false /\
  (0 < ChecksumsCount (with_sha1 cached_alive_nosums))%nat.
Proof.
  assert (H : needsUpdate (fun _ => true) (with_sha1 cached_alive_nosums)
                (Some candidate_sums) = false) by (vm_compute; reflexivity).
  split; [exact H |].
  exact (needsUpdate_false_has_checksums _ _ _ H).
Defined.

(** X7: [DeleteOldItems] only removes entries, and a second sweep at the
    same time removes nothing more. *)
Theorem DeleteOldItems_idempotent (IsAlive : Process -> bool) (now : Z)
    (e : EventsStore) :
  eventByPID (DeleteOldItems IsAlive now e) ⊆ eventByPID e /\
  DeleteOldItems IsAlive now (DeleteOldItems IsAlive now e)
    = DeleteOldItems IsAlive now e.
Proof.
  split.
  - apply map_filter_subseteq.
  - unfold DeleteOldItems; simpl. f_equal.
    apply map_filter_filter_r. intros i x _ Hx. exact Hx.
Qed.

(** X8: when every entry is dead and was last seen at least 20 s before,
    [DeleteOldItems] empties the cache ([Len()] = 0). *)
Theorem DeleteOldItems_all_expired (IsAlive : Process -> bool) (now : Z)
    (e : EventsStore) :
  map_Forall (fun _ it => pidTTL * Second <= now - LastSeen it /\
                          IsAlive (Proc it) = false) (eventByPID e) ->
  Len (DeleteOldItems IsAlive now e) = 0%nat.
Proof.
  intros Hall. unfold Len, DeleteOldItems; simpl.
  apply map_size_empty_iff, map_empty. intros k.
  apply map_lookup_filter_None_2.
  destruct (eventByPID e !! k) as [it |] eqn:Hk; [right | left; reflexivity].
  intros x Hx. injection Hx as <-.
  destruct (Hall k it Hk) as [Hage Hdead].
  assert (Hf : isValid now it = false).
  { destruct (isValid now it) eqn:E; auto. apply isValid_spec in E. lia. }
  simpl. rewrite Hf, Hdead. discriminate.
Qed.

Lemma DeleteOldItems_all_expired_witness :
  map_Forall (fun _ it => pidTTL * Second <= 21000000000 - LastSeen it /\
                          (fun _ => false) (Proc it) = false) (eventByPID store_pid1) /\
  Len (DeleteOldItems (fun _ => false) 21000000000 store_pid1) = 0%nat.
Proof.
  assert (H : map_Forall (fun _ it => pidTTL * Second <= 21000000000 - LastSeen it /\
                          (fun _ : Process => false) (Proc it) = false)
                (eventByPID store_pid1)).
  { apply map_Forall_singleton. vm_compute. split; [discriminate | reflexivity]. }
  split; [exact H | exact (DeleteOldItems_all_expired _ _ _ H)].
Defined.

(** X9: [DelChecksumHash] of a hash not in the table changes nothing, and
    of a hash whose count is 0 wraps the [uint] count to 2^64 - 1. *)
Theorem DelChecksumHash_edges (e : EventsStore) (h : string) :
  (checksums e !! h = None -> DelChecksumHash e h = e) /\
  (checksums e !! h = Some 0%N ->
   checksums (DelChecksumHash e h) !! h = Some (uint_mod - 1)%N).
Proof.
  unfold DelChecksumHash. split; intros H; rewrite H; [reflexivity |].
  simpl. rewrite lookup_insert_eq. reflexivity.
Qed.

(** X10: [SetComputeChecksums(b)] sets the flag to [b], keeps the algorithm
    table and the set of cached PIDs, and calling it again with the same
    [b] changes nothing, whatever the per-entry effects of resetting or
    recomputing checksums are. *)
Theorem SetComputeChecksums_idempotent
    (reset_effect : ExecEventItem -> ExecEventItem)
    (recompute_effect : gmap string N -> ExecEventItem -> ExecEventItem)
    (b : bool) (e : EventsStore) :
  let e' := SetComputeChecksums reset_effect recompute_effect b e in
  GetComputeChecksums e' = b /\ checksums e' = checksums e /\
  dom (eventByPID e') = dom (eventByPID e) /\
  SetComputeChecksums reset_effect recompute_effect b e' = e'.
Proof.
  unfold SetComputeChecksums, GetComputeChecksums.
  destruct b, (checksumsEnabled e) eqn:Hc; simpl;
    rewrite ?Hc, ?dom_fmap_L; auto.
Qed.

(** X11: [Update(oldProc, proc)] never dereferences a nil process: it does
    not panic for any [oldProc], [proc] (nil or not) and store. *)
Theorem Update_no_panic (IsAlive : Process -> bool)
    (pcc : gmap string N -> Process -> gmap string string)
    (GetParent : Process -> option Process)
    (BuildTree : Process -> list (string * Z))
    (now : Z) (e : EventsStore) (oldProc : Process) (proc : option Process) :
  Update IsAlive pcc GetParent BuildTree now e oldProc proc <> None.
Proof.
  unfold Update, deref, is_nil.
  destruct proc as [p |]; simpl; repeat case_match; discriminate.
Qed.

(** X12: when [proc] is the same process as [oldProc] (same PID and path)
    and lacks the ancestry tree [oldProc] has, [Update] copies
    [oldProc.Tree] into [proc] and writes [proc] back, and nothing else. *)
Theorem Update_copies_tree (IsAlive : Process -> bool)
    (pcc : gmap string N -> Process -> gmap string string)
    (GetParent : Process -> option Process)
    (BuildTree : Process -> list (string * Z))
    (now : Z) (e : EventsStore) (o p : Process) :
  ID p = ID o -> Path p = Path o -> Tree o <> [] -> Tree p = [] ->
  Update IsAlive pcc GetParent BuildTree now e o (Some p)
    = Some (UpdateItem now (set_Tree p (Tree o)) e, o, Some (set_Tree p (Tree o))).
Proof.
  intros Hid Hpath Htree Hp. unfold Update, deref, is_nil; simpl.
  rewrite Hid, Hpath, Z.eqb_refl, String.eqb_refl; simpl.
  destruct (Tree o) as [| x l] eqn:Ho; [congruence |].
  rewrite Hp, Z.eqb_refl. simpl. rewrite Ho. reflexivity.
Qed.

Lemma Update_copies_tree_witness :
  let o := set_Tree (mkp 3 "/bin/sh" 1) [("/sbin/init", 1)] in
  let p := mkp 3 "/bin/sh" 1 in
  Update (fun _ => true) (fun _ _ => ∅) (fun _ => None) (fun _ => []) 5
    NewEventsStore o (Some p)
  = Some (UpdateItem 5 (set_Tree p (Tree o)) NewEventsStore, o,
          Some (set_Tree p (Tree o))).
Proof.
  intros o p. apply Update_copies_tree; try reflexivity. discriminate.
Defined.

(** The entry of PID [pid] holds [m], a copy of the new incarnation
    [n] with [m.PPID] = [ppid], written at [now]. *)
Definition holds_new (pid ppid now : Z) (n : Process) (E : EventsStore) (m : Process) : Prop :=
  eventByPID E !! pid = Some (mkExecEventItem m now 0) /\
  ID m = pid /\ Path m = Path n /\ PPID m = ppid /\ Starttime m = Starttime n.

Lemma holds_new_write (pid ppid now : Z) (n : Process) (E : EventsStore) (m m' : Process) :
  Path n <> "" -> holds_new pid ppid now n E m ->
  ID m' = pid -> Path m' = Path n -> PPID m' = ppid -> Starttime m' = Starttime n ->
  holds_new pid ppid now n (UpdateItem now m' E) m'.
Proof.
  intros Hn [Hk [Hi [Hp [Hpp Hs]]]] Hi' Hp' Hpp' Hs'.
  rewrite UpdateItem_written.
  - unfold holds_new; simpl. rewrite Hi', lookup_insert_eq. auto.
  - congruence.
  - unfold update_accepted. rewrite Hi', Hk. simpl. left. congruence.
Qed.

Lemma holds_new_reject (pid ppid now : Z) (n : Process) (E : EventsStore) (m o : Process) :
  holds_new pid ppid now n E m ->
  ID o = pid -> Path o <> Path n -> Starttime o < Starttime n ->
  UpdateItem now o E = E.
Proof.
  intros [Hk [Hi [Hp [Hpp Hs]]]] Ho Hpo Hst.
  unfold UpdateItem, map_index. rewrite Ho, Hk. cbn [default from_option id Proc].
  destruct (String.eqb (Path o) ""); [reflexivity |].
  rewrite Hp. destruct (String.eqb_spec (Path n) (Path o)) as [Heq | _]; [congruence |].
  destruct (Z.ltb_spec (Starttime o) (Starttime m)); [reflexivity | lia].
Qed.

Lemma ComputeChecksums_PPID (IsAlive : Process -> bool)
    (pcc : gmap string N -> Process -> gmap string string)
    (e : EventsStore) (p : Process) :
  PPID (ComputeChecksums IsAlive pcc e p).2 = PPID p.
Proof. unfold ComputeChecksums. destruct (_ || _); reflexivity. Qed.

(** X13: [ReplaceItem(oldProc, newProc)] for an exec on the same PID (the
    new incarnation has another, non-empty path and a later start time,
    and the store accepts it) leaves the new incarnation in the store:
    the entry of the PID is the returned [newProc], with the new path and
    start time and [PPID] = [oldProc.ID]; the write-back of [oldProc] is
    dropped. *)
Theorem ReplaceItem_installs_new (IsAlive : Process -> bool)
    (pcc : gmap string N -> Process -> gmap string string)
    (GetParent : Process -> option Process)
    (BuildTree : Process -> list (string * Z))
    (now : Z) (e : EventsStore) (o n : Process) :
  ID o = ID n -> Path n <> "" -> Path o <> Path n ->
  Starttime o < Starttime n -> update_accepted e n ->
  let r := ReplaceItem IsAlive pcc GetParent BuildTree now e o n in
  holds_new (ID n) (ID o) now n r.1.1 r.2.
Proof.
  intros Hid Hn Hpo Hst Hacc r. subst r. unfold ReplaceItem.
  assert (I1 : holds_new (ID n) (ID o) now n
                 (UpdateItem now (set_PPID n (ID o)) e) (set_PPID n (ID o))).
  { rewrite UpdateItem_written; [| exact Hn | exact Hacc].
    unfold holds_new; simpl. rewrite lookup_insert_eq. auto. }
  destruct (if (ChecksumsCount (set_PPID n (ID o)) =? 0)%nat
            then (UpdateItem now (ComputeChecksums IsAlive pcc
                                    (UpdateItem now (set_PPID n (ID o)) e)
                                    (set_PPID n (ID o))).2
                    (UpdateItem now (set_PPID n (ID o)) e),
                  (ComputeChecksums IsAlive pcc
                     (UpdateItem now (set_PPID n (ID o)) e) (set_PPID n (ID o))).2)
            else (UpdateItem now (set_PPID n (ID o)) e, set_PPID n (ID o)))
    as [E2 n2] eqn:H2.
  assert (I2 : holds_new (ID n) (ID o) now n E2 n2).
  { destruct (ChecksumsCount (set_PPID n (ID o)) =? 0)%nat; injection H2 as <- <-;
      [| exact I1].
    destruct (ComputeChecksums_identity IsAlive pcc
                (UpdateItem now (set_PPID n (ID o)) e) (set_PPID n (ID o)))
      as [Hi [Hp Hs]].
    pose proof (ComputeChecksums_PPID IsAlive pcc
                  (UpdateItem now (set_PPID n (ID o)) e) (set_PPID n (ID o))) as Hpp.
    apply (holds_new_write _ _ _ _ _ (set_PPID n (ID o))); auto. }
  clear H2 I1.
  destruct (match Tree o with
            | [] => (UpdateItem now (set_Tree (set_Parent o (GetParent o))
                                      (BuildTree (set_Parent o (GetParent o)))) E2,
                     set_Tree (set_Parent o (GetParent o))
                       (BuildTree (set_Parent o (GetParent o))))
            | _ :: _ => (E2, o)
            end) as [E3 o3] eqn:H3.
  assert (I3 : holds_new (ID n) (ID o) now n E3 n2).
  { destruct (Tree o); injection H3 as <- <-; [| exact I2].
    erewrite holds_new_reject; [exact I2 | exact I2 | simpl; exact Hid
                                | simpl; exact Hpo | simpl; exact Hst]. }
  clear H3 I2.
  destruct I3 as (Hk & Hi & Hp & Hpp & Hs).
  destruct (Tree n2); simpl.
  - apply (holds_new_write _ _ _ _ _ n2); try assumption; unfold holds_new; auto.
  - unfold holds_new; auto.
Qed.

Lemma ReplaceItem_installs_new_witness :
  let o := mkp 1234 "/bin/wrapper" 100 in
  let n := mkp 1234 "/bin/telnet" 200 in
  let e := UpdateItem 0 o NewEventsStore in
  update_accepted e n /\
  let r := ReplaceItem (fun _ => true) (fun _ _ => ∅) (fun _ => None) (fun _ => []) 1 e o n in
  holds_new (ID n) (ID o) 1 n r.1.1 r.2.
Proof.
  intros o n e.
  assert (Hacc : update_accepted e n) by (vm_compute; right; discriminate).
  split; [exact Hacc |].
  apply ReplaceItem_installs_new; try exact Hacc; vm_compute; try reflexivity; discriminate.
Defined.

(** X14: from any store whose entries are each stored under their own
    process's PID (a new store among them), every sequence of calls, the
    checksum configuration calls included, keeps each entry under its own
    process's PID, so [IsInStoreByPID(pid)], when it finds an entry,
    returns a process whose [ID] is [pid]. The loops of
    [SetComputeChecksums] never change a process's [ID]. *)
Theorem run_entries_keyed_by_pid (IsAlive : Process -> bool)
    (pcc : gmap string N -> Process -> gmap string string)
    (GetParent : Process -> option Process)
    (BuildTree : Process -> list (string * Z))
    (reset_effect : ExecEventItem -> ExecEventItem)
    (recompute_effect : gmap string N -> ExecEventItem -> ExecEventItem)
    (cops : list cop) (s0 : State) (now pid : Z) :
  (forall it, ID (Proc (reset_effect it)) = ID (Proc it)) ->
  (forall t it, ID (Proc (recompute_effect t it)) = ID (Proc it)) ->
  map_Forall (fun k it => ID (Proc it) = k) (eventByPID (store s0)) ->
  let s := run_cop IsAlive pcc GetParent BuildTree reset_effect recompute_effect
             cops s0 in
  map_Forall (fun k it => ID (Proc it) = k) (eventByPID (store s)) /\
  ((IsInStoreByPID now (store s) pid).1.2 = true ->
   ID (Proc (IsInStoreByPID now (store s) pid).1.1) = pid).
Proof.
  intros Hreset Hrecompute H0 s.
  assert (Hs : keyed_inv (fun k it => ID (Proc it) = k) (store s)).
  { apply run_cop_keyed; [intros; reflexivity | | | exact H0].
    - intros k it Hk. rewrite Hreset. exact Hk.
    - intros k t it Hk. rewrite Hrecompute. exact Hk. }
  split; [exact Hs |].
  unfold IsInStoreByPID.
  destruct (eventByPID (store s) !! pid) as [it |] eqn:Hk; simpl; [| discriminate].
  intros _. exact (Hs pid it Hk).
Qed.

Lemma run_entries_keyed_by_pid_witness :
  let s := run_cop (fun _ => true) (fun _ _ => {["sha1" := "abc"]}) (fun _ => None)
             (fun _ => [("/sbin/init", 1)])
             (fun it => mkExecEventItem (set_Checksums (Proc it) ∅) (LastSeen it) (TTL it))
             (fun _ it => it) cops_sample (mkState NewEventsStore []) in
  map_Forall (fun k it => ID (Proc it) = k) (eventByPID (store s)) /\
  ((IsInStoreByPID 4 (store s) 5).1.2 = true ->
   ID (Proc (IsInStoreByPID 4 (store s) 5).1.1) = 5).
Proof.
  apply run_entries_keyed_by_pid; [intros; reflexivity | intros; reflexivity |].
  apply map_Forall_empty.
Defined.

(** X15: the closure armed by [Delete(key)] deletes at most the entry of
    [key]: every other entry is left as it is and [Len()] never grows. *)
Theorem delete_fire_only_key (IsAlive : Process -> bool) (key : Z)
    (ev : ExecEventItem) (e : EventsStore) :
  (forall k, k <> key ->
     eventByPID (delete_fire IsAlive key ev e) !! k = eventByPID e !! k) /\
  (Len (delete_fire IsAlive key ev e) <= Len e)%nat.
Proof.
  unfold delete_fire, Len. destruct (IsAlive (Proc ev)); simpl; [split; auto |].
  split.
  - intros k Hk. apply lookup_delete_ne. congruence.
  - apply map_subseteq_size, delete_subseteq.
Qed.

(** X16: enabling checksums ([SetComputeChecksums(true)] while disabled)
    leaves every entry that already has checksums as it is. *)
Theorem SetComputeChecksums_keeps_hashed
    (reset_effect : ExecEventItem -> ExecEventItem)
    (recompute_effect : gmap string N -> ExecEventItem -> ExecEventItem)
    (e : EventsStore) (k : Z) (it : ExecEventItem) :
  checksumsEnabled e = false ->
  ChecksumsCount (Proc it) <> 0%nat ->
  eventByPID e !! k = Some it ->
  eventByPID (SetComputeChecksums reset_effect recompute_effect true e) !! k = Some it.
Proof.
  intros Hc Hn Hk. unfold SetComputeChecksums. rewrite Hc. simpl.
  rewrite lookup_fmap, Hk. simpl.
  destruct (ChecksumsCount (Proc it) =? 0)%nat eqn:E; [| reflexivity].
  apply Nat.eqb_eq in E. contradiction.
Qed.

Lemma SetComputeChecksums_keeps_hashed_witness :
  eventByPID (SetComputeChecksums (fun it => it)
     (fun _ it => mkExecEventItem (set_Checksums (Proc it) {["md5" := "0"]})
                    (LastSeen it) (TTL it))
     true (mkEventsStore {[7 := mkExecEventItem (with_sha1 (mkp 7 "/bin/z" 1)) 0 0]}
             {["sha1" := 1%N]} false)) !! 7
  = Some (mkExecEventItem (with_sha1 (mkp 7 "/bin/z" 1)) 0 0).
Proof.
  apply SetComputeChecksums_keeps_hashed; [reflexivity | vm_compute; discriminate |].
  apply lookup_insert_eq.
Defined.

Arguments Firewall.CallStop {Handle} h.
Arguments Firewall.CallInit {Handle} h qNum configPath monitorInterval bypassQueue.
Arguments Firewall.CallCleanRules {Handle} h logErrors.
Arguments Firewall.CallEnableInterception {Handle} h.
Arguments Firewall.CallDisableInterception {Handle} h b.
Arguments Firewall.mkFwState {Handle} fw queueNum calls.
Arguments Firewall.fw {Handle} f.
Arguments Firewall.queueNum {Handle} f.
Arguments Firewall.calls {Handle} f.
Arguments Firewall.set_fw {Handle} s f.
Arguments Firewall.record {Handle} s c.
Arguments Firewall.Stop {Handle} s.
Arguments Firewall.CleanRules {Handle} logErrors s.
Arguments Firewall.IsRunning {Handle} fw_IsRunning s.
Arguments Firewall.EnableInterception {Handle} s.
Arguments Firewall.DisableInterception {Handle} s.
Arguments Firewall.Init {Handle} iptables_Name nftables_Name DefaultConfigFile
  iptables_Fw nftables_Fw fwType configPath monitorInterval bypassQueue qNum s.
Arguments Firewall.Reload {Handle} iptables_Name nftables_Name DefaultConfigFile
  iptables_Fw nftables_Fw fwtype configPath monitorInterval bypassQueue qNum s.

Section FirewallFacts.

Context {Handle : Type}.
Variables iptables_Name nftables_Name DefaultConfigFile : string.
Variables iptables_Fw nftables_Fw : option Handle * option string.
Variable fw_IsRunning : Handle -> bool.

Local Abbreviation Init := (Firewall.Init iptables_Name nftables_Name DefaultConfigFile
  iptables_Fw nftables_Fw).
Local Abbreviation Reload := (Firewall.Reload iptables_Name nftables_Name DefaultConfigFile
  iptables_Fw nftables_Fw).

(** X17: [Init] either succeeds, leaving [fw] set to some firewall [h],
    [queueNum] set to [qNum], and having called [h.Stop()] then
    [h.Init(qNum, configPath, ...)] with an empty [configPath] replaced by
    the default configuration file; or it fails, leaving [queueNum] as it
    was and calling nothing. *)
Theorem Init_effect (fwType configPath monitorInterval : string) (bypassQueue : bool)
    (qNum : Z) (s : Firewall.FwState Handle) :
  let r := Init fwType configPath monitorInterval bypassQueue qNum s in
  match r.1 with
  | None => exists h, r.2 = Firewall.mkFwState (Some h) qNum
      (Firewall.calls s ++ [Firewall.CallStop h;
         Firewall.CallInit h qNum
           (if String.eqb configPath "" then DefaultConfigFile else configPath)
           monitorInterval bypassQueue])
  | Some _ => Firewall.queueNum r.2 = Firewall.queueNum s /\
              Firewall.calls r.2 = Firewall.calls s
  end.
Proof.
  unfold Firewall.Init. repeat case_match; simplify_eq/=; eauto.
Qed.


(** X18: an empty firewall type selects nftables. *)
Theorem Init_empty_type (configPath monitorInterval : string) (bypassQueue : bool)
    (qNum : Z) (s : Firewall.FwState Handle) :
  Init "" configPath monitorInterval bypassQueue qNum s =
  Init nftables_Name configPath monitorInterval bypassQueue qNum s.
Proof.
  unfold Firewall.Init.
  destruct (String.eqb nftables_Name "") eqn:E; [| reflexivity].
  apply String.eqb_eq in E. subst. reflexivity.
Qed.

(** X19: when [iptables.Fw()] returns an error, asking for iptables gives
    the same result and state as asking for nftables. *)
Theorem Init_iptables_fallback (m : string)
    (configPath monitorInterval : string) (bypassQueue : bool)
    (qNum : Z) (s : Firewall.FwState Handle) :
  snd iptables_Fw = Some m ->
  Init iptables_Name configPath monitorInterval bypassQueue qNum s =
  Init nftables_Name configPath monitorInterval bypassQueue qNum s.
Proof.
  intros Hm. unfold Firewall.Init.
  destruct iptables_Fw as [f1 e1]. simpl in Hm. subst e1.
  destruct (String.eqb iptables_Name "") eqn:E1.
  - apply String.eqb_eq in E1. subst.
    destruct (String.eqb nftables_Name "") eqn:E2.
    + apply String.eqb_eq in E2. subst. reflexivity.
    + cbn zeta. change (String.eqb "" "") with true. cbn iota. rewrite E2.
      reflexivity.
  - rewrite String.eqb_refl, orb_true_r.
    destruct (String.eqb nftables_Name "") eqn:E2.
    + apply String.eqb_eq in E2. subst. simpl.
      destruct iptables_Name; reflexivity.
    + cbn zeta iota.
      destruct (String.eqb nftables_Name iptables_Name); cbn iota;
        rewrite String.eqb_refl; reflexivity.
Qed.

(** X20: with distinct backend names, a working iptables backend is the
    one selected for the "iptables" type; nftables is not tried. *)
Theorem Init_iptables_ok (h : Handle) (configPath monitorInterval : string)
    (bypassQueue : bool) (qNum : Z) (s : Firewall.FwState Handle) :
  iptables_Name <> "" -> iptables_Name <> nftables_Name ->
  iptables_Fw = (Some h, None) ->
  Init iptables_Name configPath monitorInterval bypassQueue qNum s =
  (None, Firewall.mkFwState (Some h) qNum
     (Firewall.calls s ++ [Firewall.CallStop h;
        Firewall.CallInit h qNum
          (if String.eqb configPath "" then DefaultConfigFile else configPath)
          monitorInterval bypassQueue])).
Proof.
  intros H1 H2 Hfw.
  assert (E1 : String.eqb iptables_Name "" = false) by (apply String.eqb_neq; exact H1).
  assert (E2 : String.eqb iptables_Name nftables_Name = false)
    by (apply String.eqb_neq; exact H2).
  unfold Firewall.Init. rewrite E1. cbn zeta iota.
  rewrite String.eqb_refl, Hfw. cbn iota. rewrite E2. reflexivity.
Qed.

(** X21: a firewall type that is neither empty, iptables nor nftables
    creates no backend: the firewall already in [fw] is stopped and
    initialised again, and without one [Init] fails as not initialised. *)
Theorem Init_unknown_type (fwType configPath monitorInterval : string)
    (bypassQueue : bool) (qNum : Z) (s : Firewall.FwState Handle) :
  fwType <> "" -> fwType <> iptables_Name -> fwType <> nftables_Name ->
  Init fwType configPath monitorInterval bypassQueue qNum s =
  match Firewall.fw s with
  | None => (Some Firewall.ErrNotInitialized, Firewall.set_fw s None)
  | Some h =>
      (None, Firewall.mkFwState (Some h) qNum
         (Firewall.calls s ++ [Firewall.CallStop h;
            Firewall.CallInit h qNum
              (if String.eqb configPath "" then DefaultConfigFile else configPath)
              monitorInterval bypassQueue]))
  end.
Proof.
  intros H1 H2 H3.
  assert (E1 : String.eqb fwType "" = false) by (apply String.eqb_neq; exact H1).
  assert (E2 : String.eqb fwType iptables_Name = false) by (apply String.eqb_neq; exact H2).
  assert (E3 : String.eqb fwType nftables_Name = false) by (apply String.eqb_neq; exact H3).
  unfold Firewall.Init. rewrite E1. cbn zeta iota. rewrite E2. cbn iota. rewrite E3.
  cbn iota. destruct (Firewall.fw s); reflexivity.
Qed.

(** X22: [Reload] with a firewall in place first stops it; on success the
    new firewall [h] is then stopped and initialised, on failure nothing
    else is called. *)
Theorem Reload_calls (h0 : Handle) (fwType configPath monitorInterval : string)
    (bypassQueue : bool) (qNum : Z) (s : Firewall.FwState Handle) :
  Firewall.fw s = Some h0 ->
  let r := Reload fwType configPath monitorInterval bypassQueue qNum s in
  match r.1 with
  | None => exists h, Firewall.calls r.2 =
      Firewall.calls s ++ [Firewall.CallStop h0; Firewall.CallStop h;
        Firewall.CallInit h qNum
          (if String.eqb configPath "" then DefaultConfigFile else configPath)
          monitorInterval bypassQueue]
  | Some _ => Firewall.calls r.2 = Firewall.calls s ++ [Firewall.CallStop h0]
  end.
Proof.
  intros Hfw. unfold Firewall.Reload, Firewall.Stop. rewrite Hfw.
  unfold Firewall.Init. repeat case_match; simplify_eq/=; try reflexivity;
    eexists; rewrite <- app_assoc; reflexivity.
Qed.

Lemma Init_not_initialized_fw (fwType configPath monitorInterval : string)
    (bypassQueue : bool) (qNum : Z) (s : Firewall.FwState Handle) :
  (Init fwType configPath monitorInterval bypassQueue qNum s).1 =
    Some Firewall.ErrNotInitialized ->
  Firewall.fw (Init fwType configPath monitorInterval bypassQueue qNum s).2 = None.
Proof.
  unfold Firewall.Init. intros H. repeat case_match; simpl in *; congruence.
Qed.

(** X23: after [Init] fails as not initialised, [IsRunning] is false,
    [EnableInterception] and [DisableInterception] return an error, and
    none of them, [Stop] or [CleanRules] calls anything or changes the
    state. *)
Theorem Init_not_initialized_inert (fwType configPath monitorInterval : string)
    (bypassQueue logErrors : bool) (qNum : Z) (s : Firewall.FwState Handle) :
  (Init fwType configPath monitorInterval bypassQueue qNum s).1 =
    Some Firewall.ErrNotInitialized ->
  let s' := (Init fwType configPath monitorInterval bypassQueue qNum s).2 in
  Firewall.IsRunning fw_IsRunning s' = false /\
  is_Some (Firewall.EnableInterception s').1 /\ (Firewall.EnableInterception s').2 = s' /\
  is_Some (Firewall.DisableInterception s').1 /\ (Firewall.DisableInterception s').2 = s' /\
  Firewall.Stop s' = s' /\ Firewall.CleanRules logErrors s' = s'.
Proof.
  intros He s'. pose proof (Init_not_initialized_fw _ _ _ _ _ _ He) as Hn.
  fold s' in Hn.
  unfold Firewall.IsRunning, Firewall.EnableInterception, Firewall.DisableInterception,
    Firewall.Stop, Firewall.CleanRules.
  rewrite Hn. repeat split; eexists; reflexivity.
Qed.

End FirewallFacts.

Lemma Init_iptables_fallback_witness :
  Firewall.Init (Handle := Z) "iptables" "nftables" "/etc/opensnitchd/system-fw.json"
    (None, Some "exec: iptables: not found") (Some 2, None)
    "iptables" "" "10s" false 0 (Firewall.mkFwState (Some 1) 5 [])
  = Firewall.Init "iptables" "nftables" "/etc/opensnitchd/system-fw.json"
    (None, Some "exec: iptables: not found") (Some 2, None)
    "nftables" "" "10s" false 0 (Firewall.mkFwState (Some 1) 5 []).
Proof.
  apply (Init_iptables_fallback _ _ _ _ _ "exec: iptables: not found").
  reflexivity.
Defined.

Lemma Init_iptables_ok_witness :
  Firewall.Init (Handle := Z) "iptables" "nftables" "/etc/opensnitchd/system-fw.json"
    (Some 1, None) (Some 2, None) "iptables" "" "10s" false 0
    (Firewall.mkFwState None 5 [])
  = (None, Firewall.mkFwState (Some 1) 0
       ([] ++ [Firewall.CallStop 1;
               Firewall.CallInit 1 0
                 (if String.eqb "" "" then "/etc/opensnitchd/system-fw.json" else "")
                 "10s" false])).
Proof.
  apply Init_iptables_ok; [discriminate | discriminate | reflexivity].
Defined.

Lemma Init_unknown_type_witness :
  Firewall.Init (Handle := Z) "iptables" "nftables" "/etc/opensnitchd/system-fw.json"
    (Some 1, None) (Some 2, None) "pf" "/tmp/fw.json" "10s" false 0
    (Firewall.mkFwState (Some 3) 5 [])
  = (None, Firewall.mkFwState (Some 3) 0
       ([] ++ [Firewall.CallStop 3;
               Firewall.CallInit 3 0
                 (if String.eqb "/tmp/fw.json" "" then "/etc/opensnitchd/system-fw.json"
                  else "/tmp/fw.json")
                 "10s" false])).
Proof.
  rewrite (Init_unknown_type "iptables" "nftables" "/etc/opensnitchd/system-fw.json"
    (Some 1, None) (Some 2, None) "pf"); [reflexivity | discriminate ..].
Defined.

Lemma Reload_calls_witness :
  let r := Firewall.Reload (Handle := Z) "iptables" "nftables"
             "/etc/opensnitchd/system-fw.json" (Some 1, None) (Some 2, None)
             "nftables" "" "10s" false 0 (Firewall.mkFwState (Some 3) 5 []) in
  match r.1 with
  | None => exists h, Firewall.calls r.2 =
      [] ++ [Firewall.CallStop 3; Firewall.CallStop h;
        Firewall.CallInit h 0
          (if String.eqb "" "" then "/etc/opensnitchd/system-fw.json" else "")
          "10s" false]
  | Some _ => Firewall.calls r.2 = [] ++ [Firewall.CallStop 3]
  end.
Proof.
  apply Reload_calls. reflexivity.
Defined.

Lemma Init_not_initialized_inert_witness :
  let s' := (Firewall.Init (Handle := Z) "iptables" "nftables"
               "/etc/opensnitchd/system-fw.json" (Some 1, None) (Some 2, None)
               "pf" "" "10s" false 0 (Firewall.mkFwState None 5 [])).2 in
  Firewall.IsRunning (fun _ => true) s' = false /\
  is_Some (Firewall.EnableInterception s').1 /\ (Firewall.EnableInterception s').2 = s' /\
  is_Some (Firewall.DisableInterception s').1 /\ (Firewall.DisableInterception s').2 = s' /\
  Firewall.Stop s' = s' /\ Firewall.CleanRules true s' = s'.
Proof.
  apply Init_not_initialized_inert. reflexivity.
Defined.
